(** * Synthetic wholesale electricity prices

    A shallow embedding of [energy_traces/test-generator.py]: the calendar
    baseline [baseline_price], the hourly loop of [generate_prices] with its
    smoothing recurrence, rare spike and clamp, and the table and console
    report it produces.

    Python's [float] is IEEE 754 binary64.  The program text is embedded once,
    over an arithmetic interface ([Arith]).  The properties of the program are
    proved at the instance [Binary64]: what CPython computes, rounding
    included, on the Standard Library's executable specification [SpecFloat].
    The instance [Exact] reads the same formulas over the rationals; it is
    not what the program computes, and serves only to say what the decimal
    products of the baseline tables are before rounding. *)

From Stdlib Require Import ZArith QArith Qpower Qabs Lqa Lia List Bool String.
From Stdlib Require Import Floats.SpecFloat.
From stdpp Require Import gmap list.

Local Open Scope Z_scope.

(** ** Decimal literals

    A literal such as [0.085] in the source denotes the decimal fraction
    85 × 10⁻³; how it becomes a number is up to the arithmetic. *)

Record Lit := mk_lit { lit_m : Z; lit_k : nat }.

Definition lit_of_number (n : Number.number) : option Lit :=
  match n with
  | Number.Decimal (Decimal.Decimal (Decimal.Pos d) f) =>
      Some (mk_lit (Z.of_uint (Decimal.app d f)) (Decimal.nb_digits f))
  | Number.Decimal (Decimal.Decimal (Decimal.Neg d) f) =>
      Some (mk_lit (- Z.of_uint (Decimal.app d f)) (Decimal.nb_digits f))
  | _ => None
  end.

Definition number_of_lit (l : Lit) : option Number.number := None.

Declare Scope lit_scope.
Delimit Scope lit_scope with lit.
Number Notation Lit lit_of_number number_of_lit : lit_scope.

Definition lit_value (l : Lit) : Q :=
  (inject_Z (lit_m l) / inject_Z (10 ^ Z.of_nat (lit_k l)))%Q.

(** ** The arithmetic the program uses: literals, [+], [*], [<] and [==] *)

Class Arith (F : Type) := {
  of_lit : Lit -> F;
  add : F -> F -> F;
  mul : F -> F -> F;
  ltb : F -> F -> bool;
  eqb : F -> F -> bool
}.

Declare Scope arith_scope.
Delimit Scope arith_scope with A.
Notation "$ l" := (of_lit l%lit) (at level 1, l constr, format "$ l").
Infix "+" := add : arith_scope.
Infix "*" := mul : arith_scope.
Infix "<?" := ltb : arith_scope.
Infix "=?" := eqb : arith_scope.

(** *** IEEE 754 binary64, round to nearest even *)

Module Binary64.

Definition prec : Z := 53.
Definition emax : Z := 1024.

Abbreviation float := spec_float.

(** An integer as a float (exact below 2⁵³). *)
Definition of_Z (z : Z) : float := binary_normalize prec emax z 0 false.

(** A decimal literal is read with correct rounding: the quotient of two
    exactly represented integers, rounded once. *)
Definition read_lit (l : Lit) : float :=
  SFdiv prec emax (of_Z (lit_m l)) (of_Z (10 ^ Z.of_nat (lit_k l))).

Definition is_nan (x : float) : bool :=
  match x with S754_nan => true | _ => false end.

Definition is_finite (x : float) : bool :=
  match x with S754_finite _ _ _ | S754_zero _ => true | _ => false end.

Definition leb (x y : float) : bool := SFleb x y.

(** The rational a finite float stands for. *)
Definition to_Q (x : float) : Q :=
  match x with
  | S754_finite s m e =>
      let v := (inject_Z (Z.pos m) * (if 0 <=? e then inject_Z (2 ^ e)
                                      else / inject_Z (2 ^ (- e))))%Q in
      if s then (- v)%Q else v
  | _ => 0%Q
  end.

#[global] Instance arith : Arith float := {|
  of_lit := read_lit;
  add := SFadd prec emax;
  mul := SFmul prec emax;
  ltb := SFltb;
  eqb := SFeqb
|}.

(** Not NaN, and a finite value has at most [prec] mantissa bits. *)
Definition well_formed (x : float) : bool :=
  match x with
  | S754_nan => false
  | S754_finite _ m _ => Zdigits2 (Z.pos m) <=? prec
  | _ => true
  end.

Definition sign_is (s : bool) (x : float) : Prop :=
  match x with
  | S754_zero s' | S754_infinity s' | S754_finite s' _ _ => s' = s
  | S754_nan => False
  end.

(** [0.02 <= p <= 0.40]. *)
Definition in_clamp_range (p : float) : bool :=
  leb ($0.02) p && leb p ($0.40).

Definition is_pos (x : float) : Prop := ∃ m e, x = S754_finite false m e.

Definition pos_finite (x : float) : bool :=
  match x with S754_finite false _ _ => well_formed x | _ => false end.

(** What the loop keeps true of [prev_price]. *)
Definition ok_prev (prev : option float) : Prop :=
  match prev with
  | None => True
  | Some p => in_clamp_range p = true ∧ well_formed p = true
  end.

(** [2^e], and the value [m × 2^e] of a mantissa and an exponent. *)
Definition pow2 (e : Z) : Q := (2 ^ e)%Q.
Definition F2Q (m e : Z) : Q := (inject_Z m * pow2 e)%Q.

(** A value with the sign of a float put on it. *)
Definition signed (s : bool) (v : Q) : Q := if s then (- v)%Q else v.

(** A double in the clamp range: positive, with a full 53-bit mantissa. *)
Definition normal_price (p : float) : Prop :=
  in_clamp_range p = true ∧
  ∃ m e, p = S754_finite false m e ∧ Zdigits2 (Z.pos m) = 53.

End Binary64.

(** *** Exact rational arithmetic

    The decimal reading of the formulas, for comparison with the binary64
    results. *)

Module Exact.

Definition Qltb (x y : Q) : bool := negb (Qle_bool y x).

#[global] Instance arith : Arith Q := {|
  of_lit := lit_value;
  add := Qplus;
  mul := Qmult;
  ltb := Qltb;
  eqb := Qeq_bool
|}.

End Exact.

(** ** Timestamps

    A pandas [Timestamp] is a count of nanoseconds since 1970-01-01T00:00;
    its calendar fields are read off the proleptic Gregorian calendar. *)

Record Timestamp := mk_ts { value : Z }.

Definition ns_per_ms : Z := 10 ^ 6.
Definition ns_per_hour : Z := 3600 * 10 ^ 9.
Definition ns_per_day : Z := 24 * ns_per_hour.

(** Days since the epoch of a calendar date. *)
Definition days_from_civil (y m d : Z) : Z :=
  let y' := if m <=? 2 then y - 1 else y in
  let era := y' / 400 in
  let yoe := y' - era * 400 in
  let doy := (153 * (if 2 <? m then m - 3 else m + 9) + 2) / 5 + d - 1 in
  let doe := yoe * 365 + yoe / 4 - yoe / 100 + doy in
  era * 146097 + doe - 719468.

(** Calendar date [(year, month, day)] of a day count. *)
Definition civil_from_days (z : Z) : Z * Z * Z :=
  let z' := z + 719468 in
  let era := z' / 146097 in
  let doe := z' - era * 146097 in
  let yoe := (doe - doe / 1460 + doe / 36524 - doe / 146096) / 365 in
  let doy := doe - (365 * yoe + yoe / 4 - yoe / 100) in
  let mp := (5 * doy + 2) / 153 in
  let d := doy - (153 * mp + 2) / 5 + 1 in
  let m := if mp <? 10 then mp + 3 else mp - 9 in
  ((if m <=? 2 then yoe + era * 400 + 1 else yoe + era * 400), m, d).

Definition year (dt : Timestamp) : Z := (civil_from_days (value dt / ns_per_day)).1.1.
Definition month (dt : Timestamp) : Z := (civil_from_days (value dt / ns_per_day)).1.2.
Definition day (dt : Timestamp) : Z := (civil_from_days (value dt / ns_per_day)).2.
Definition hour (dt : Timestamp) : Z := (value dt / ns_per_hour) mod 24.

(** [pd.Timestamp("y-m-d h:00")]. *)
Definition timestamp_of (y m d h : Z) : Timestamp :=
  mk_ts (days_from_civil y m d * ns_per_day + h * ns_per_hour).

(** [n] values from [start] in steps of [step]. *)
Fixpoint arange (n : nat) (start step : Z) : list Z :=
  match n with
  | O => []
  | S n' => start :: arange n' (start + step) step
  end.

(** [pd.date_range(start, end, freq)]: the regular grid from [start], in
    steps of [freq] nanoseconds, up to and including [end]. *)
Definition date_range (start end_ : Timestamp) (freq : Z) : list Timestamp :=
  mk_ts <$> arange (Z.to_nat ((value end_ - value start) / freq + 1)) (value start) freq.

(** The calendar, said independently: month lengths and the leap rule. *)
Definition is_leap (y : Z) : bool :=
  (y mod 4 =? 0) && (negb (y mod 100 =? 0) || (y mod 400 =? 0)).

Definition days_in_month (y m : Z) : Z :=
  if m =? 2 then (if is_leap y then 29 else 28)
  else if bool_decide (m ∈ [4; 6; 9; 11]) then 30 else 31.

Definition next_date (ymd : Z * Z * Z) : Z * Z * Z :=
  let '(y, m, d) := ymd in
  if d <? days_in_month y m then (y, m, d + 1)
  else if m <? 12 then (y, m + 1, 1) else (y + 1, 1, 1).

(** The grid of [generate_prices]: hourly from 2021-01-01 00:00 to
    2024-12-31 23:00. *)
Definition grid_start : Timestamp := timestamp_of 2021 1 1 0.
Definition grid_end : Timestamp := timestamp_of 2024 12 31 23.

Definition timestamps : list Timestamp :=
  date_range grid_start grid_end ns_per_hour.

(** ** Exceptions, and computations that draw random numbers *)

Inductive exn := KeyError (key : Z).

Definition M (G A : Type) : Type := G -> exn + (A * G).

#[global] Instance M_ret {G} : MRet (M G) := λ A a g, inr (a, g).

#[global] Instance M_bind {G} : MBind (M G) := λ A B k m g,
  match m g with
  | inl e => inl e
  | inr (a, g') => k a g'
  end.

(** A pure computation that may raise. *)
Definition pure_or_raise {G A} (r : exn + A) : M G A :=
  λ g, match r with inl e => inl e | inr a => inr (a, g) end.

(** A draw: it returns a value and advances the generator. *)
Definition draw {G A} (f : G -> A * G) : M G A := λ g, inr (f g).

(** [np.random]: the three draws the program makes from the global
    generator, whose state is [G]. *)
Class RandomState (F G : Type) := {
  normal : F -> F -> G -> F * G;
  random : G -> F * G;
  uniform : F -> F -> G -> F * G
}.

(** ** The program *)

Inductive token (F : Type) :=
| Str (s : string)
| Int (n : nat)
| Flt (x : option F).
Arguments Str {F} s.
Arguments Int {F} n.
Arguments Flt {F} x.

(** What a run leaves behind: the rows of the parquet table
    (millisecond timestamp, price) and the lines printed. *)
Record Output (F : Type) := mk_output {
  table : list (Z * F);
  stdout : list (list (token F))
}.
Arguments mk_output {F} table stdout.
Arguments table {F} o.
Arguments stdout {F} o.

Section Program.

Context {F : Type} {AF : Arith F}.

(** Built-ins [max(a, b)] and [min(a, b)]: the first argument unless the
    second is greater (resp. smaller). *)
Definition py_max (a b : F) : F := if (a <? b)%A then b else a.
Definition py_min (a b : F) : F := if (b <? a)%A then b else a.

Definition year_factor : gmap Z F :=
  {[ 2021 := $0.07; 2022 := $0.15; 2023 := $0.11; 2024 := $0.085 ]}%A.

Definition season_mult (month : Z) : F :=
  if bool_decide (month ∈ [12; 1; 2]) then $1.25
  else if bool_decide (month ∈ [6; 7; 8]) then $0.85
  else $1.05.

Definition tod_mult (hour : Z) : F :=
  if (0 <=? hour) && (hour <? 6) then $0.85
  else if (6 <=? hour) && (hour <? 12) then $1.05
  else if (12 <=? hour) && (hour <? 18) then $1.15
  else if (18 <=? hour) && (hour <? 22) then $1.20
  else $1.00.

Definition baseline_price (dt : Timestamp) : exn + F :=
  match year_factor !! year dt with
  | None => inl (KeyError (year dt))
  | Some year_factor =>
      inr (year_factor * season_mult (month dt) * tod_mult (hour dt))%A
  end.

(** [Series.min()] and [Series.max()]: missing values ([x != x]) are
    skipped; [None] when nothing is left. *)
Definition notna (x : F) : bool := (x =? x)%A.

Definition series_min (l : list F) : option F :=
  match filter (λ x, notna x = true) l with
  | [] => None
  | x :: xs => Some (foldl py_min x xs)
  end.

Definition series_max (l : list F) : option F :=
  match filter (λ x, notna x = true) l with
  | [] => None
  | x :: xs => Some (foldl py_max x xs)
  end.

Section Generate.

Context {G : Type} {rs : RandomState F G}.

(** One pass of the [for dt in timestamps] body, on the loop variables
    [prices] and [prev_price]. *)
Definition loop_body (dt : Timestamp) (st : list F * option F)
  : M G (list F * option F) :=
  let '(prices, prev_price) := st in
  base ← pure_or_raise (baseline_price dt);
  noise ← draw (normal $0.0 $0.002);
  let price :=
    match prev_price with
    | None => (base + noise)%A
    | Some prev_price => ($0.8 * prev_price + $0.2 * (base + noise))%A
    end in
  u ← draw random;
  price ← (if (u <? $0.0005)%A
           then m ← draw (uniform $1.5 $3.5); mret (price * m)%A
           else mret price);
  let price := py_max price $0.02 in
  let price := py_min price $0.40 in
  mret (prices ++ [price], Some price).

Fixpoint for_each (ts : list Timestamp) (st : list F * option F)
  : M G (list F * option F) :=
  match ts with
  | [] => mret st
  | dt :: ts' => st' ← loop_body dt st; for_each ts' st'
  end.

Definition generate_prices : M G (Output F) :=
  st ← for_each timestamps ([], None);
  let prices := st.1 in
  let df_timestamp := timestamps in
  let df_price := prices in
  let rows := zip ((λ dt, value dt / ns_per_ms) <$> df_timestamp) df_price in
  mret (mk_output rows
         [ [Str "Generated test_set_2021-2024.parquet with ";
            Int (length df_timestamp); Str " rows."];
           [Str "Example price range:"; Flt (series_min df_price);
            Str "to"; Flt (series_max df_price); Str "€/kWh"] ]).

End Generate.

End Program.

(** ** Specification-side definitions *)

Definition supported_years : list Z := [2021; 2022; 2023; 2024].

Section Tables.

Context {F : Type} `{Arith F}.

(** The baseline tables as the specification words them. *)
Definition spec_year_factor (y : Z) : F :=
  if y =? 2021 then $0.07 else if y =? 2022 then $0.15
  else if y =? 2023 then $0.11 else $0.085.

Definition spec_season_multiplier (m : Z) : F :=
  if (m =? 12) || (m =? 1) || (m =? 2) then $1.25
  else if (m =? 6) || (m =? 7) || (m =? 8) then $0.85
  else $1.05.

Definition spec_time_of_day_multiplier (h : Z) : F :=
  if h <? 6 then $0.85 else if h <? 12 then $1.05
  else if h <? 18 then $1.15 else if h <? 22 then $1.20 else $1.00.

(** Every value the baseline can take: year × season × time of day. *)
Definition baseline_values : list F :=
  yf ← [$0.07; $0.15; $0.11; $0.085];
  sm ← [$1.25; $0.85; $1.05];
  tm ← [$0.85; $1.05; $1.15; $1.20; $1.00];
  [(yf * sm * tm)%A].

End Tables.

Section Series.

Context {F : Type} {AF : Arith F} {G : Type} {rs : RandomState F G}.

(** Step 5: [min(max(raw, 0.02), 0.40)]. *)
Definition clamp (x : F) : F := py_min (py_max x $0.02) $0.40.

(** Step 3: the first hour takes baseline + noise, every later hour blends
    it with the previous output. *)
Definition smooth (previous_output_price : option F) (baseline noise : F) : F :=
  match previous_output_price with
  | None => (baseline + noise)%A
  | Some prev => ($0.8 * prev + $0.2 * (baseline + noise))%A
  end.

(** Step 4: a uniform draw below 0.0005 multiplies the price by a second
    draw from [1.5, 3.5]; otherwise the price is left alone. *)
Inductive spike (raw : F) (g : G) : F → G → Prop :=
| spike_taken u g1 m g2 :
    random g = (u, g1) → (u <? $0.0005)%A = true →
    uniform $1.5 $3.5 g1 = (m, g2) →
    spike raw g (raw * m)%A g2
| spike_skipped u g1 :
    random g = (u, g1) → (u <? $0.0005)%A = false →
    spike raw g raw g1.

(** Steps 1 to 5 for one hour. *)
Inductive hourly_step (prev : option F) (dt : Timestamp) (g : G) : F → G → Prop :=
| hourly_step_intro baseline noise g1 spiked g2 :
    baseline_price dt = inr baseline →
    normal $0.0 $0.002 g = (noise, g1) →
    spike (smooth prev baseline noise) g1 spiked g2 →
    hourly_step prev dt g (clamp spiked) g2.

(** Step 6: the final price is emitted and becomes the next hour's
    previous output. *)
Inductive series : option F → list Timestamp → G → list F → G → Prop :=
| series_nil prev g : series prev [] g [] g
| series_cons prev dt ts g final_price g1 ps g' :
    hourly_step prev dt g final_price g1 →
    series (Some final_price) ts g1 ps g' →
    series prev (dt :: ts) g (final_price :: ps) g'.

(** The loop variable [prev_price] after the prices [ps] were emitted. *)
Definition prev_after (prev : option F) (ps : list F) : option F :=
  match last ps with Some p => Some p | None => prev end.

End Series.

(** What [np.random] can return: [normal] never yields NaN and [uniform]
    stays between its bounds. *)
Definition numpy_draws {G : Type} (rs : RandomState Binary64.float G) : Prop :=
  (∀ loc scale g, Binary64.is_nan (normal loc scale g).1 = false) ∧
  (∀ low high g, Binary64.leb low high = true →
     Binary64.leb low (uniform low high g).1 = true ∧
     Binary64.leb (uniform low high g).1 high = true).

(** Every noise draw is a double of magnitude at most 0.03 (fifteen
    standard deviations of the loop's [normal(0.0, 0.002)]). *)
Definition small_noise {G : Type} (rs : RandomState Binary64.float G) : Prop :=
  ∀ loc scale g,
    Binary64.well_formed (normal loc scale g).1 = true ∧
    Binary64.leb (SFabs (normal loc scale g).1) $0.03 = true.

(** Two generators make the same draws when, from related states, every
    draw returns the same value and leaves related states. *)
Definition same_draws {F G1 G2 : Type}
    (rs1 : RandomState F G1) (rs2 : RandomState F G2) (R : G1 → G2 → Prop) : Prop :=
  (∀ loc scale g1 g2, R g1 g2 →
     (@normal _ _ rs1 loc scale g1).1 = (@normal _ _ rs2 loc scale g2).1 ∧
     R (@normal _ _ rs1 loc scale g1).2 (@normal _ _ rs2 loc scale g2).2) ∧
  (∀ g1 g2, R g1 g2 →
     (@random _ _ rs1 g1).1 = (@random _ _ rs2 g2).1 ∧
     R (@random _ _ rs1 g1).2 (@random _ _ rs2 g2).2) ∧
  (∀ low high g1 g2, R g1 g2 →
     (@uniform _ _ rs1 low high g1).1 = (@uniform _ _ rs2 low high g2).1 ∧
     R (@uniform _ _ rs1 low high g1).2 (@uniform _ _ rs2 low high g2).2).

(** The closed form of the smoothing recurrence, over the rationals. *)
Definition closed_form (price_0 b : Q) (n : nat) : Q :=
  ((4 # 5) ^ Z.of_nat n * price_0 + b * (1 - (4 # 5) ^ Z.of_nat n))%Q.

Section ClosedForm.

Context {F : Type} {AF : Arith F}.

(** The rational a number of the arithmetic stands for. *)
Variable val : F → Q.

Definition noise_disabled {G : Type} (rs : RandomState F G) : Prop :=
  ∀ loc scale g, (val (normal loc scale g).1 == 0)%Q.

(** Every noise draw compares equal to [0.0]. *)
Definition noise_is_zero {G : Type} (rs : RandomState F G) : Prop :=
  ∀ loc scale g, ((normal loc scale g).1 =? $0.0)%A = true.

Definition spikes_disabled {G : Type} (rs : RandomState F G) : Prop :=
  ∀ g, ((random g).1 <? $0.0005)%A = false.

Definition within_clamp (p : F) : Prop :=
  (p <? $0.02)%A = false ∧ ($0.40 <? p)%A = false.

(** From [price_0], over hours that all have baseline [b], without noise
    or spikes, the [n]-th price is the closed form. *)
Definition closed_form_holds : Prop :=
  ∀ (G : Type) (rs : RandomState F G) (g : G) ts price_0 b,
    noise_disabled rs → spikes_disabled rs →
    Forall (λ dt, baseline_price dt = inr b) ts →
    within_clamp price_0 →
    ∃ ps g',
      for_each ts ([], Some price_0) g
        = inr ((ps, prev_after (Some price_0) ps), g') ∧
      length ps = length ts ∧
      ∀ n p, ps !! n = Some p →
             (val p == closed_form (val price_0) (val b) (S n))%Q.

End ClosedForm.

(** Bound on the rounding error of one noise-free blend
    [0.8 * prev + 0.2 * base] in binary64: three units of 2⁻⁵³. *)
Definition blend_error : Q := 3 # 9007199254740992.

(** Bound on the rounding error of one blend
    [0.8 * prev + 0.2 * (base + noise)] in binary64: 2⁻⁵¹. *)
Definition step_error : Q := 4 # 9007199254740992.

(** A price that small noise can have reached without a spike. *)
Definition calm (p : Binary64.float) : Prop :=
  Binary64.normal_price p ∧
  (205 # 10000 <= Binary64.to_Q p)%Q ∧ (Binary64.to_Q p <= 2551 # 10000)%Q.

(** How far the noise-free loop can drift from the closed form in binary64:
    five times [blend_error], rounded up. *)
Definition closed_form_tolerance : Q := 2 # 1000000000000000.

(** ** Sample generators *)

(** No noise, never a spike. *)
Definition quiet_random_state {F : Type} `{Arith F} : RandomState F nat := {|
  normal := λ (_ _ : F) (g : nat), ($0.0, S g);
  random := λ g : nat, ($0.5, S g);
  uniform := λ (low _ : F) (g : nat), (low, S g)
|}.

(** A generator whose draws depend on how many were made: noise on every
    other draw, and a spike whenever the count is even at the spike test. *)
Definition counting_random_state : RandomState Binary64.float nat := {|
  normal := λ (_ _ : Binary64.float) (g : nat),
              (if Nat.even g then $0.001 else $0.0, S g);
  random := λ g : nat, (if Nat.even g then $0.0 else $0.5, S g);
  uniform := λ (low _ : Binary64.float) (g : nat), (low, S g)
|}.

(** The same draws from one bit of state. *)
Definition parity_random_state : RandomState Binary64.float bool := {|
  normal := λ (_ _ : Binary64.float) (g : bool),
              (if g then $0.001 else $0.0, negb g);
  random := λ g : bool, (if g then $0.0 else $0.5, negb g);
  uniform := λ (low _ : Binary64.float) (g : bool), (low, negb g)
|}.

(** Noise of ±0.002 on alternate draws, never a spike. *)
Definition calm_random_state : RandomState Binary64.float nat := {|
  normal := λ (_ _ : Binary64.float) (g : nat),
              (if Nat.even g then $0.002 else SFopp $0.002, S g);
  random := λ g : nat, ($0.5, S g);
  uniform := λ (low _ : Binary64.float) (g : nat), (low, S g)
|}.

(** * Properties *)

(** ** The calendar and the timestamp grid *)

Lemma lookup_arange n start step i :
  arange n start step !! i =
    if decide (i < n)%nat then Some (start + Z.of_nat i * step) else None.
Proof.
  revert start i. induction n as [|n IH]; intros start i; [done|].
  destruct i as [|i]; simpl.
  - f_equal. lia.
  - rewrite IH. repeat case_decide; try lia; f_equal; lia.
Qed.

Lemma length_arange n start step : length (arange n start step) = n.
Proof. revert start. induction n; intros; simpl; auto. Qed.

Lemma hour_range dt : 0 <= hour dt < 24.
Proof. unfold hour. apply Z.mod_pos_bound. lia. Qed.

Lemma grid_size :
  (value grid_end - value grid_start) / ns_per_hour + 1 = 35064.
Proof. reflexivity. Qed.

Lemma timestamps_lookup i dt :
  timestamps !! i = Some dt ↔
  Z.of_nat i < 35064 ∧ dt = mk_ts (value grid_start + Z.of_nat i * ns_per_hour).
Proof.
  unfold timestamps, date_range.
  rewrite grid_size, list_lookup_fmap, lookup_arange.
  case_decide as Hi; simpl; split.
  - intros [= <-]. split; [lia|done].
  - by intros [_ ->].
  - done.
  - intros [? _]. lia.
Qed.

Lemma timestamps_length : Z.of_nat (length timestamps) = 35064.
Proof.
  unfold timestamps, date_range.
  rewrite grid_size, length_fmap, length_arange. lia.
Qed.

Lemma timestamps_spacing i a b :
  timestamps !! i = Some a → timestamps !! S i = Some b →
  value b = value a + ns_per_hour.
Proof.
  intros [_ ->]%timestamps_lookup [_ ->]%timestamps_lookup. simpl. lia.
Qed.

Lemma timestamps_increasing i j a b :
  timestamps !! i = Some a → timestamps !! j = Some b →
  (i < j)%nat → value a < value b.
Proof.
  intros [_ ->]%timestamps_lookup [_ ->]%timestamps_lookup Hij. simpl.
  unfold ns_per_hour. lia.
Qed.

Lemma timestamps_NoDup : NoDup timestamps.
Proof.
  apply NoDup_alt. intros i j dt Hi Hj.
  destruct (Nat.lt_trichotomy i j) as [Hlt|[->|Hlt]]; [|done|].
  - pose proof (timestamps_increasing _ _ _ _ Hi Hj Hlt). lia.
  - pose proof (timestamps_increasing _ _ _ _ Hj Hi Hlt). lia.
Qed.

Lemma forallb_Forall {A} (f : A → bool) (l : list A) :
  forallb f l = true → Forall (λ x, f x = true) l.
Proof.
  intros Hall. apply Forall_forall. intros x Hx%list_elem_of_In.
  rewrite forallb_forall in Hall. by apply Hall.
Qed.

Lemma timestamps_supported :
  Forall (λ dt, year dt ∈ supported_years) timestamps.
Proof.
  assert (forallb (λ dt, bool_decide (year dt ∈ supported_years)) timestamps = true)
    as Hall by (vm_compute; reflexivity).
  apply forallb_Forall in Hall.
  eapply Forall_impl; [exact Hall|]. intros dt Hdt. simpl in Hdt.
  by apply bool_decide_eq_true in Hdt.
Qed.

(** Day by day over the four years, the day count and the calendar agree:
    the next day number is the next calendar date, and the two conversions
    are inverse. *)
Lemma calendar_agrees :
  Forall (λ d, civil_from_days (d + 1) = next_date (civil_from_days d) ∧
               (let '(y, m, dd) := civil_from_days d in days_from_civil y m dd) = d)
         (arange 1461 (days_from_civil 2021 1 1) 1).
Proof.
  pose (ok := λ d,
    bool_decide (civil_from_days (d + 1) = next_date (civil_from_days d)) &&
    (let '(y, m, dd) := civil_from_days d in days_from_civil y m dd =? d)).
  assert (forallb ok (arange 1461 (days_from_civil 2021 1 1) 1) = true)
    as Hall by (vm_compute; reflexivity).
  apply forallb_Forall in Hall.
  eapply Forall_impl; [exact Hall|]. intros d Hd. unfold ok in Hd.
  apply andb_prop in Hd as [H1 H2]. apply bool_decide_eq_true in H1.
  split; [done|]. destruct (civil_from_days d) as [[y m] dd]. by apply Z.eqb_eq.
Qed.

(** ** The baseline *)

Section BaselineFacts.

Context {F : Type} `{Arith F}.

Lemma year_factor_lookup y :
  year_factor (F:=F) !! y =
    if decide (y = 2021) then Some ($0.07)
    else if decide (y = 2022) then Some ($0.15)
    else if decide (y = 2023) then Some ($0.11)
    else if decide (y = 2024) then Some ($0.085) else None.
Proof. unfold year_factor. repeat case_decide; simplify_map_eq; done. Qed.

Lemma supported_years_spec y :
  y ∈ supported_years ↔ y = 2021 ∨ y = 2022 ∨ y = 2023 ∨ y = 2024.
Proof.
  unfold supported_years. rewrite !elem_of_cons, elem_of_nil. tauto.
Qed.

Lemma year_factor_supported y :
  y ∈ supported_years → year_factor (F:=F) !! y = Some (spec_year_factor y).
Proof.
  rewrite supported_years_spec, year_factor_lookup.
  intros [-> | [-> | [-> | ->]]]; reflexivity.
Qed.

Lemma year_factor_unsupported y :
  y ∉ supported_years → year_factor (F:=F) !! y = None.
Proof.
  rewrite supported_years_spec, year_factor_lookup. intros Hy.
  repeat case_decide; tauto.
Qed.

Lemma season_mult_spec m : season_mult (F:=F) m = spec_season_multiplier m.
Proof.
  unfold season_mult, spec_season_multiplier.
  repeat case_bool_decide;
    repeat match goal with
      | Hm : _ ∈ _ |- _ => rewrite !elem_of_cons, elem_of_nil in Hm
      | Hm : ¬ _ ∈ _ |- _ => rewrite !elem_of_cons, elem_of_nil in Hm
      end;
    repeat match goal with
      | |- context [?a =? ?b] => destruct (Z.eqb_spec a b)
      end; simpl; try reflexivity; exfalso; lia.
Qed.

Lemma tod_mult_spec h :
  0 <= h < 24 → tod_mult (F:=F) h = spec_time_of_day_multiplier h.
Proof.
  intros Hh. unfold tod_mult, spec_time_of_day_multiplier.
  repeat match goal with
    | |- context [?a <=? ?b] => destruct (Z.leb_spec a b)
    | |- context [?a <? ?b] => destruct (Z.ltb_spec a b)
    end; simpl; try reflexivity; exfalso; lia.
Qed.

Lemma baseline_price_supported dt :
  year dt ∈ supported_years →
  baseline_price dt =
    inr (spec_year_factor (year dt) * spec_season_multiplier (month dt)
         * spec_time_of_day_multiplier (hour dt))%A.
Proof.
  intros Hy. unfold baseline_price.
  rewrite (year_factor_supported _ Hy), season_mult_spec,
    (tod_mult_spec _ (hour_range dt)). reflexivity.
Qed.

Lemma baseline_price_unsupported dt :
  year dt ∉ supported_years →
  baseline_price (F:=F) dt = inl (KeyError (year dt)).
Proof.
  intros Hy. unfold baseline_price.
  rewrite (year_factor_unsupported _ Hy). reflexivity.
Qed.

Lemma baseline_price_inr dt b :
  baseline_price dt = inr b → year dt ∈ supported_years.
Proof.
  intros Hb. destruct (decide (year dt ∈ supported_years)) as [|Hn]; [done|].
  rewrite (baseline_price_unsupported _ Hn) in Hb. discriminate.
Qed.

Lemma baseline_in_values dt b :
  baseline_price dt = inr b → b ∈ baseline_values.
Proof.
  intros Hb. pose proof (baseline_price_inr _ _ Hb) as Hy.
  rewrite (baseline_price_supported _ Hy) in Hb.
  injection Hb as <-.
  unfold baseline_values.
  apply list_elem_of_bind. exists (spec_year_factor (year dt)). split.
  2:{ unfold spec_year_factor.
      repeat match goal with
        | |- context [?a =? ?b] => destruct (Z.eqb_spec a b)
        end; rewrite !elem_of_cons; auto. }
  apply list_elem_of_bind. exists (spec_season_multiplier (month dt)). split.
  2:{ unfold spec_season_multiplier.
      repeat match goal with
        | |- context [if ?c then _ else _] => destruct c
        end; rewrite !elem_of_cons; auto. }
  apply list_elem_of_bind. exists (spec_time_of_day_multiplier (hour dt)). split.
  2:{ unfold spec_time_of_day_multiplier.
      repeat match goal with
        | |- context [if ?c then _ else _] => destruct c
        end; rewrite !elem_of_cons; auto 6. }
  apply list_elem_of_singleton. reflexivity.
Qed.

End BaselineFacts.

(** ** The hourly loop, for any arithmetic and any generator *)

Section LoopFacts.

Context {F : Type} {AF : Arith F} {G : Type} {rs : RandomState F G}.

Lemma spike_total raw (g : G) : ∃ spiked g', spike raw g spiked g'.
Proof.
  destruct (random g) as [u g1] eqn:Eu.
  destruct (u <? $0.0005)%A eqn:Elt.
  - destruct (uniform $1.5 $3.5 g1) as [m g2] eqn:Em.
    exists (raw * m)%A, g2. by eapply spike_taken.
  - exists raw, g1. by eapply spike_skipped.
Qed.

Lemma spike_functional raw (g : G) s1 g1 s2 g2 :
  spike raw g s1 g1 → spike raw g s2 g2 → s1 = s2 ∧ g1 = g2.
Proof.
  intros [u g1' m g2' Hu Hlt Hm|u g1' Hu Hlt] [v h1 n h2 Hv Hlt' Hn|v h1 Hv Hlt'];
    rewrite Hu in Hv; injection Hv as <- <-; try congruence.
  - rewrite Hm in Hn. injection Hn as <- <-. done.
  - done.
Qed.

(** The loop body computes exactly one hourly step, appends its price and
    carries it forward. *)
Lemma loop_body_step dt prices prev (g : G) p g' :
  hourly_step prev dt g p g' →
  loop_body dt (prices, prev) g = inr ((prices ++ [p], Some p), g').
Proof.
  intros [base noise g1 spiked g2 Hb Hn Hs].
  unfold loop_body, mbind, M_bind, pure_or_raise, draw, mret, M_ret.
  rewrite Hb, Hn.
  destruct Hs as [u g1' m g2' Hu Hlt Hm|u g1' Hu Hlt]; rewrite Hu, Hlt.
  - rewrite Hm. destruct prev; reflexivity.
  - destruct prev; reflexivity.
Qed.

Lemma hourly_step_total prev dt (g : G) :
  year dt ∈ supported_years → ∃ p g', hourly_step prev dt g p g'.
Proof.
  intros Hy.
  assert (∃ base : F, baseline_price dt = inr base) as [base Hb]
    by eauto using baseline_price_supported.
  destruct (normal $0.0 $0.002 g) as [noise g1] eqn:En.
  destruct (spike_total (smooth prev base noise) g1) as (spiked & g2 & Hs).
  exists (clamp spiked), g2. by eapply hourly_step_intro.
Qed.

Lemma loop_body_raises dt st (g : G) :
  year dt ∉ supported_years →
  loop_body dt st g = inl (KeyError (year dt)).
Proof.
  intros Hy. destruct st as [prices prev].
  unfold loop_body, mbind, M_bind, pure_or_raise.
  by rewrite (baseline_price_unsupported _ Hy).
Qed.

Lemma series_total ts : ∀ prev (g : G),
  Forall (λ dt, year dt ∈ supported_years) ts →
  ∃ ps g', series prev ts g ps g'.
Proof.
  induction ts as [|dt ts IH]; intros prev g Hts.
  - exists [], g. constructor.
  - apply Forall_cons in Hts as [Hy Hts].
    destruct (hourly_step_total prev dt g Hy) as (p & g1 & Hp).
    destruct (IH (Some p) g1 Hts) as (ps & g' & Hps).
    exists (p :: ps), g'. by econstructor.
Qed.

Lemma series_length prev ts (g : G) ps g' :
  series prev ts g ps g' → length ps = length ts.
Proof. induction 1; simpl; congruence. Qed.

Lemma prev_after_cons prev p (ps : list F) :
  prev_after (Some p) ps = prev_after prev (p :: ps).
Proof.
  unfold prev_after. destruct ps as [|q ps]; [reflexivity|].
  change (last (p :: q :: ps)) with (last (q :: ps)).
  destruct (last (q :: ps)) eqn:E; [reflexivity|].
  by apply last_None in E.
Qed.

Lemma for_each_cons dt ts st (g : G) :
  for_each (dt :: ts) st g =
    match loop_body dt st g with
    | inl e => inl e
    | inr (st', g') => for_each ts st' g'
    end.
Proof. reflexivity. Qed.

(** The loop emits the series and leaves [prev_price] at its last price. *)
Lemma for_each_series prev ts (g : G) ps g' :
  series prev ts g ps g' →
  ∀ prices,
    for_each ts (prices, prev) g = inr ((prices ++ ps, prev_after prev ps), g').
Proof.
  induction 1 as [prev g|prev dt ts g p g1 ps g' Hstep Hs IH]; intros prices.
  - simpl. unfold mret, M_ret, prev_after. simpl. by rewrite app_nil_r.
  - rewrite for_each_cons, (loop_body_step _ prices _ _ _ _ Hstep), IH.
    by rewrite <- app_assoc, (prev_after_cons prev).
Qed.

End LoopFacts.

(** ** The whole run *)

Opaque timestamps.

Section RunFacts.

Context {F : Type} {AF : Arith F} {G : Type} {rs : RandomState F G}.

(** A run that returns has emitted a series. *)
Lemma for_each_inr ts : ∀ prices prev (g : G) st g',
  for_each ts (prices, prev) g = inr (st, g') →
  ∃ ps, series prev ts g ps g' ∧ st = (prices ++ ps, prev_after prev ps).
Proof.
  induction ts as [|dt ts IH]; intros prices prev g st g' Hrun.
  - injection Hrun as <- <-. exists []. split; [constructor|].
    by rewrite app_nil_r.
  - rewrite for_each_cons in Hrun.
    destruct (decide (year dt ∈ supported_years)) as [Hy|Hy].
    + destruct (hourly_step_total prev dt g Hy) as (p & g1 & Hstep).
      rewrite (loop_body_step _ prices _ _ _ _ Hstep) in Hrun.
      destruct (IH _ _ _ _ _ Hrun) as (ps & Hps & ->).
      exists (p :: ps). split; [by econstructor|].
      by rewrite <- app_assoc, (prev_after_cons prev).
    + by rewrite (loop_body_raises _ _ _ Hy) in Hrun.
Qed.

(** [generate_prices] always returns: it emits the series over the grid,
    zips it with the millisecond timestamps and prints the two lines. *)
Lemma generate_prices_run (g : G) :
  ∃ ps g',
    series None timestamps g ps g' ∧
    generate_prices g =
      inr (mk_output
             (zip ((λ dt, value dt / ns_per_ms) <$> timestamps) ps)
             [ [Str "Generated test_set_2021-2024.parquet with ";
                Int (length timestamps); Str " rows."];
               [Str "Example price range:"; Flt (series_min ps);
                Str "to"; Flt (series_max ps); Str "€/kWh"] ],
           g').
Proof.
  destruct (series_total timestamps None g timestamps_supported)
    as (ps & g' & Hs).
  exists ps, g'. split; [done|].
  unfold generate_prices, mbind, M_bind.
  by rewrite (for_each_series _ _ _ _ _ Hs []).
Qed.

Lemma table_columns (ps : list F) :
  length ps = length timestamps →
  (zip ((λ dt, value dt / ns_per_ms) <$> timestamps) ps).*1
    = (λ dt, value dt / ns_per_ms) <$> timestamps ∧
  (zip ((λ dt, value dt / ns_per_ms) <$> timestamps) ps).*2 = ps.
Proof.
  intros Hlen. split.
  - apply fst_zip. rewrite length_fmap. lia.
  - apply snd_zip. rewrite length_fmap. lia.
Qed.

End RunFacts.

(** ** Binary64 arithmetic: no NaN and no overflow inside the loop *)

Module Binary64Facts.

Import Binary64.

(** Read the interface operations as the binary64 ones. *)
Ltac float_ops :=
  change (@ltb spec_float arith) with SFltb in *;
  change (@eqb spec_float arith) with SFeqb in *;
  change (@add spec_float arith) with (SFadd prec emax) in *;
  change (@mul spec_float arith) with (SFmul prec emax) in *.

Lemma digits2_pos_size p : digits2_pos p = Pos.size p.
Proof. induction p; simpl; congruence. Qed.

Lemma Zdigits2_pos p : Zdigits2 (Z.pos p) = Z.log2 (Z.pos p) + 1.
Proof.
  simpl. rewrite digits2_pos_size.
  destruct p; simpl; rewrite ?Pos2Z.inj_succ; lia.
Qed.

Lemma Zdigits2_nonneg m : 0 <= Zdigits2 m.
Proof. destruct m; simpl; lia. Qed.

Lemma Zdigits2_succ m : 0 <= m → Zdigits2 (m + 1) <= Zdigits2 m + 1.
Proof.
  intros Hm. destruct m as [|p|p]; [simpl; lia| |lia].
  replace (Z.pos p + 1) with (Z.pos (p + 1)) by lia.
  rewrite !Zdigits2_pos.
  replace (Z.pos (p + 1)) with (Z.succ (Z.pos p)) by lia.
  pose proof (Z.log2_succ_le (Z.pos p)). lia.
Qed.

Lemma Zdigits2_mul a b :
  Zdigits2 (Z.pos (a * b)) <= Zdigits2 (Z.pos a) + Zdigits2 (Z.pos b).
Proof.
  rewrite !Zdigits2_pos, Pos2Z.inj_mul.
  pose proof (Z.log2_mul_above (Z.pos a) (Z.pos b)). lia.
Qed.

Lemma shr_1_digits mrs :
  0 <= shr_m mrs →
  0 <= shr_m (shr_1 mrs) ∧
  Zdigits2 (shr_m (shr_1 mrs)) = Z.max 0 (Zdigits2 (shr_m mrs) - 1).
Proof.
  destruct mrs as [m r s]. simpl. intros Hm.
  destruct m as [|[p|p|]|p]; simpl; try lia.
Qed.

Lemma iter_shr_1_digits p mrs :
  0 <= shr_m mrs →
  0 <= shr_m (SpecFloat.iter_pos shr_1 p mrs) ∧
  Zdigits2 (shr_m (SpecFloat.iter_pos shr_1 p mrs))
    = Z.max 0 (Zdigits2 (shr_m mrs) - Z.pos p).
Proof.
  revert mrs. induction p as [p IH|p IH|]; intros mrs Hm; simpl.
  - destruct (shr_1_digits mrs Hm) as [H1 E1].
    destruct (IH _ H1) as [H2 E2]. destruct (IH _ H2) as [H3 E3].
    split; [done|]. rewrite E3, E2, E1. lia.
  - destruct (IH _ Hm) as [H2 E2]. destruct (IH _ H2) as [H3 E3].
    split; [done|]. rewrite E3, E2. lia.
  - apply shr_1_digits, Hm.
Qed.

Lemma shr_record_of_loc_m m l : shr_m (shr_record_of_loc m l) = m.
Proof. destruct l as [|[]]; reflexivity. Qed.

(** Shifting to the target exponent: the mantissa stays non-negative and
    fits the precision, and the exponent is the larger of the old one and
    the target. *)
Lemma shr_fexp_spec m e l :
  0 <= m →
  let r := shr_fexp prec emax m e l in
  0 <= shr_m r.1 ∧ Zdigits2 (shr_m r.1) <= prec ∧
  Zdigits2 (shr_m r.1) <= Zdigits2 m ∧
  r.2 = Z.max e (fexp prec emax (Zdigits2 m + e)).
Proof.
  intros Hm. unfold shr_fexp, shr, fexp, emin, prec, emax. simpl.
  pose proof (Zdigits2_nonneg m) as Hd.
  destruct (Z.max (Zdigits2 m + e - 53) (3 - 1024 - 53) - e) as [|p|p] eqn:En;
    simpl; rewrite ?shr_record_of_loc_m.
  - repeat split; lia.
  - destruct (iter_shr_1_digits p (shr_record_of_loc m l)) as [H1 E1];
      rewrite ?shr_record_of_loc_m in *; [done|].
    rewrite E1. repeat split; lia.
  - repeat split; lia.
Qed.

Lemma round_nearest_even_spec m l :
  0 <= m →
  0 <= round_nearest_even m l ∧
  Zdigits2 (round_nearest_even m l) <= Zdigits2 m + 1.
Proof.
  intros Hm. pose proof (Zdigits2_succ m Hm).
  destruct l as [|[]]; simpl; try destruct (Z.even m); split; lia.
Qed.

(** Rounding a non-negative mantissa never yields NaN; the result carries
    the requested sign, has at most [prec] bits, and is finite as long as
    the value stays far enough below the overflow threshold. *)
Lemma binary_round_aux_spec sx mx ex lx :
  0 <= mx →
  let r := binary_round_aux prec emax sx mx ex lx in
  well_formed r = true ∧ sign_is sx r ∧
  (ex <= 970 → Zdigits2 mx + ex <= 1023 → is_finite r = true).
Proof.
  intros Hm. unfold binary_round_aux.
  pose proof (shr_fexp_spec mx ex lx Hm) as H1.
  destruct (shr_fexp prec emax mx ex lx) as [mrs1 e1]. simpl in H1.
  destruct H1 as (Hm1 & Hd1 & Hd1' & He1).
  pose proof (round_nearest_even_spec (shr_m mrs1) (loc_of_shr_record mrs1) Hm1)
    as [Hm2 Hd2].
  pose proof (shr_fexp_spec _ e1 loc_Exact Hm2) as H2.
  destruct (shr_fexp prec emax _ e1 loc_Exact) as [mrs2 e2]. simpl in H2.
  destruct H2 as (Hm3 & Hd3 & _ & He2).
  destruct (shr_m mrs2) as [|m|m] eqn:Em; [by simpl| |lia].
  unfold fexp, emin, prec, emax in *.
  destruct (Z.leb_spec e2 (1024 - 53)); simpl.
  - split; [apply Z.leb_le; exact Hd3|]. split; done.
  - split; [done|]. split; [done|]. intros. exfalso. lia.
Qed.

Lemma binary_normalize_wf m e s :
  well_formed (binary_normalize prec emax m e s) = true.
Proof.
  destruct m as [|p|p]; [done| |]; simpl; unfold binary_round;
    destruct (shl_align _ _ _) as [mz ez];
    apply binary_round_aux_spec; lia.
Qed.

Lemma SFmul_finite_l s m e y :
  is_nan y = false → well_formed (SFmul prec emax (S754_finite s m e) y) = true.
Proof.
  destruct y; simpl; try done. intros _. apply binary_round_aux_spec. lia.
Qed.

Lemma SFmul_finite_r x s m e :
  is_nan x = false → well_formed (SFmul prec emax x (S754_finite s m e)) = true.
Proof.
  destruct x; simpl; try done. intros _. apply binary_round_aux_spec. lia.
Qed.

Lemma SFmul_no_overflow s1 m1 e1 s2 m2 e2 :
  e1 + e2 <= 970 →
  Zdigits2 (Z.pos m1) + Zdigits2 (Z.pos m2) + e1 + e2 <= 1023 →
  is_finite (SFmul prec emax (S754_finite s1 m1 e1) (S754_finite s2 m2 e2)) = true.
Proof.
  intros He Hd. simpl. apply binary_round_aux_spec; [lia|lia|].
  pose proof (Zdigits2_mul m1 m2). lia.
Qed.

Lemma well_formed_not_nan x : well_formed x = true → is_nan x = false.
Proof. by destruct x. Qed.

Lemma SFadd_finite_l s m e y :
  well_formed (S754_finite s m e) = true → is_nan y = false →
  well_formed (SFadd prec emax (S754_finite s m e) y) = true.
Proof.
  intros Hx Hy. destruct y; try done. apply binary_normalize_wf.
Qed.

Lemma SFadd_wf x y :
  well_formed x = true → well_formed y = true → is_finite x = true →
  well_formed (SFadd prec emax x y) = true.
Proof.
  intros Hx Hy Hf.
  destruct x as [sx|sx| |sx mx ex], y as [sy|sy| |sy my ey]; try done.
  - by destruct sx, sy.
  - apply binary_normalize_wf.
Qed.

(** Comparison is antisymmetric. *)
Lemma SFcompare_antisym x y :
  SFcompare y x = CompOpp <$> SFcompare x y.
Proof.
  destruct x as [[]|[]| |[] mx ex], y as [[]|[]| |[] my ey]; try reflexivity;
    simpl; rewrite (Z.compare_antisym ex ey);
    destruct (ex ?= ey); simpl; try reflexivity;
    first [ rewrite CompOpp_involutive, (Pos.compare_cont_antisym my mx Eq)
          | rewrite (Pos.compare_cont_antisym mx my Eq) ];
    reflexivity.
Qed.

Lemma SFltb_false_leb x y :
  is_nan x = false → is_nan y = false →
  SFltb x y = false → SFleb y x = true.
Proof.
  intros Hx Hy. unfold SFltb, SFleb. rewrite (SFcompare_antisym x y).
  destruct (SFcompare x y) as [[]|] eqn:E; try done.
  by destruct x, y.
Qed.

Lemma SFltb_leb x y : SFltb x y = true → SFleb x y = true.
Proof. unfold SFltb, SFleb. by destruct (SFcompare x y) as [[]|]. Qed.

(** *** Order facts on positive finite floats, and [Series.min]/[max] *)

Lemma SFleb_pos_spec m1 e1 m2 e2 :
  SFleb (S754_finite false m1 e1) (S754_finite false m2 e2) = true ↔
  e1 < e2 ∨ (e1 = e2 ∧ (m1 <= m2)%positive).
Proof.
  unfold SFleb. simpl. rewrite Pos.compare_cont_spec. simpl.
  destruct (Z.compare_spec e1 e2), (Pos.compare_spec m1 m2);
    split; intros; try done; lia.
Qed.

Lemma SFltb_pos_spec m1 e1 m2 e2 :
  SFltb (S754_finite false m1 e1) (S754_finite false m2 e2) = true ↔
  e1 < e2 ∨ (e1 = e2 ∧ (m1 < m2)%positive).
Proof.
  unfold SFltb. simpl. rewrite Pos.compare_cont_spec. simpl.
  destruct (Z.compare_spec e1 e2), (Pos.compare_spec m1 m2);
    split; intros; try done; lia.
Qed.

Lemma lit_0_02 : $0.02 = S754_finite false 5764607523034235 (-58).
Proof. vm_compute. reflexivity. Qed.

Lemma lit_0_40 : $0.40 = S754_finite false 7205759403792794 (-54).
Proof. vm_compute. reflexivity. Qed.

Lemma lit_0_8 : $0.8 = S754_finite false 7205759403792794 (-53).
Proof. vm_compute. reflexivity. Qed.

Lemma lit_0_2 : $0.2 = S754_finite false 7205759403792794 (-55).
Proof. vm_compute. reflexivity. Qed.

Lemma in_clamp_range_finite p :
  in_clamp_range p = true →
  ∃ m e, p = S754_finite false m e ∧ -58 <= e <= -54.
Proof.
  unfold in_clamp_range. rewrite lit_0_02, lit_0_40.
  intros [H1 H2]%andb_prop. revert H1 H2.
  destruct p as [[]|[]| |[] m e]; try done.
  unfold leb. rewrite !SFleb_pos_spec. intros [H1|[H1 _]] [H2|[H2 _]];
    exists m, e; (split; [reflexivity|lia]).
Qed.

Lemma clamp_cases (x : float) : clamp x = $0.02 ∨ clamp x = $0.40 ∨ clamp x = x.
Proof.
  unfold clamp, py_min, py_max.
  repeat match goal with |- context [if ?c then _ else _] => destruct c end; auto.
Qed.

Lemma clamp_in_range (x : float) :
  is_nan x = false → in_clamp_range (clamp x) = true.
Proof.
  intros Hx. unfold clamp, py_min, py_max, in_clamp_range.
  float_ops.
  destruct (SFltb x $0.02) eqn:E1.
  - vm_compute. reflexivity.
  - apply SFltb_false_leb in E1; [|done|done].
    destruct (SFltb $0.40 x) eqn:E2.
    + vm_compute. reflexivity.
    + apply SFltb_false_leb in E2; [|done|done].
      apply andb_true_intro; split; done.
Qed.

Lemma clamp_well_formed (x : float) :
  well_formed x = true → well_formed (clamp x) = true.
Proof. intros Hx. destruct (clamp_cases x) as [-> | [-> | ->]]; done. Qed.

Lemma in_clamp_range_pos p : in_clamp_range p = true → is_pos p.
Proof. intros (m & e & -> & _)%in_clamp_range_finite. by exists m, e. Qed.

Lemma leb_pos_refl x : is_pos x → leb x x = true.
Proof. intros (m & e & ->). apply SFleb_pos_spec. lia. Qed.

Lemma leb_pos_trans x y z :
  is_pos x → is_pos y → is_pos z →
  leb x y = true → leb y z = true → leb x z = true.
Proof.
  intros (m1 & e1 & ->) (m2 & e2 & ->) (m3 & e3 & ->).
  unfold leb. rewrite !SFleb_pos_spec. lia.
Qed.

Lemma notna_pos x : is_pos x → notna x = true.
Proof.
  intros (m & e & ->). unfold notna. float_ops.
  unfold SFeqb, SFcompare.
  by rewrite Z.compare_refl, Pos.compare_cont_refl.
Qed.

Lemma py_min_pos a b :
  is_pos a → is_pos b →
  (py_min a b = a ∨ py_min a b = b) ∧
  leb (py_min a b) a = true ∧ leb (py_min a b) b = true.
Proof.
  intros Ha Hb. unfold py_min. float_ops.
  destruct (SFltb b a) eqn:E.
  - split; [by right|]. split; [by apply SFltb_leb|by apply leb_pos_refl].
  - split; [by left|]. split; [by apply leb_pos_refl|].
    destruct Ha as (? & ? & ->), Hb as (? & ? & ->).
    by apply SFltb_false_leb.
Qed.

Lemma py_max_pos a b :
  is_pos a → is_pos b →
  (py_max a b = a ∨ py_max a b = b) ∧
  leb a (py_max a b) = true ∧ leb b (py_max a b) = true.
Proof.
  intros Ha Hb. unfold py_max. float_ops.
  destruct (SFltb a b) eqn:E.
  - split; [by right|]. split; [by apply SFltb_leb|by apply leb_pos_refl].
  - split; [by left|]. split; [by apply leb_pos_refl|].
    destruct Ha as (? & ? & ->), Hb as (? & ? & ->).
    by apply SFltb_false_leb.
Qed.

Lemma foldl_py_min_pos xs : ∀ x,
  is_pos x → Forall is_pos xs →
  foldl py_min x xs ∈ x :: xs ∧ Forall (λ y, leb (foldl py_min x xs) y = true) (x :: xs).
Proof.
  induction xs as [|y xs IH]; intros x Hx Hxs; cbn [foldl].
  - split; [apply list_elem_of_here|]. repeat constructor. by apply leb_pos_refl.
  - apply Forall_cons in Hxs as [Hy Hxs].
    destruct (py_min_pos x y Hx Hy) as (Hsel & Hlx & Hly).
    assert (is_pos (py_min x y)) as Hm by (destruct Hsel as [-> | ->]; done).
    destruct (IH _ Hm Hxs) as [Hin Hall].
    apply Forall_cons in Hall as [Hr Hall].
    assert (is_pos (foldl py_min (py_min x y) xs)) as Hrpos.
    { apply elem_of_cons in Hin as [Hin | Hin]; [by rewrite Hin|].
      rewrite Forall_forall in Hxs. by apply Hxs. }
    split.
    + apply elem_of_cons in Hin as [Hin | Hin].
      * rewrite Hin. destruct Hsel as [-> | ->]; [apply list_elem_of_here|].
        apply list_elem_of_further, list_elem_of_here.
      * by do 2 apply list_elem_of_further.
    + constructor; [apply (leb_pos_trans _ (py_min x y)); done|].
      constructor; [apply (leb_pos_trans _ (py_min x y)); done|done].
Qed.

Lemma foldl_py_max_pos xs : ∀ x,
  is_pos x → Forall is_pos xs →
  foldl py_max x xs ∈ x :: xs ∧ Forall (λ y, leb y (foldl py_max x xs) = true) (x :: xs).
Proof.
  induction xs as [|y xs IH]; intros x Hx Hxs; cbn [foldl].
  - split; [apply list_elem_of_here|]. repeat constructor. by apply leb_pos_refl.
  - apply Forall_cons in Hxs as [Hy Hxs].
    destruct (py_max_pos x y Hx Hy) as (Hsel & Hlx & Hly).
    assert (is_pos (py_max x y)) as Hm by (destruct Hsel as [-> | ->]; done).
    destruct (IH _ Hm Hxs) as [Hin Hall].
    apply Forall_cons in Hall as [Hr Hall].
    assert (is_pos (foldl py_max (py_max x y) xs)) as Hrpos.
    { apply elem_of_cons in Hin as [Hin | Hin]; [by rewrite Hin|].
      rewrite Forall_forall in Hxs. by apply Hxs. }
    split.
    + apply elem_of_cons in Hin as [Hin | Hin].
      * rewrite Hin. destruct Hsel as [-> | ->]; [apply list_elem_of_here|].
        apply list_elem_of_further, list_elem_of_here.
      * by do 2 apply list_elem_of_further.
    + constructor; [apply (leb_pos_trans _ (py_max x y)); done|].
      constructor; [apply (leb_pos_trans _ (py_max x y)); done|done].
Qed.

Lemma filter_notna_pos (l : list float) :
  Forall is_pos l → filter (λ x, notna x = true) l = l.
Proof.
  induction 1 as [|x l Hx Hl IH]; [done|].
  rewrite filter_cons_True by by apply notna_pos. by rewrite IH.
Qed.

(** On a non-empty series of positive prices, [min()] and [max()] are the
    least and the greatest price. *)
Lemma series_min_max_pos (l : list float) :
  l ≠ [] → Forall is_pos l →
  ∃ lo hi, series_min l = Some lo ∧ series_max l = Some hi ∧
           lo ∈ l ∧ hi ∈ l ∧
           Forall (λ p, leb lo p = true ∧ leb p hi = true) l.
Proof.
  intros Hne Hpos. unfold series_min, series_max.
  rewrite (filter_notna_pos l Hpos).
  destruct l as [|x xs]; [done|].
  apply Forall_cons in Hpos as [Hx Hxs].
  destruct (foldl_py_min_pos xs x Hx Hxs) as [Hin1 Hall1].
  destruct (foldl_py_max_pos xs x Hx Hxs) as [Hin2 Hall2].
  eexists _, _. repeat split; try done.
  rewrite Forall_forall in *. intros p Hp. split; [by apply Hall1|by apply Hall2].
Qed.

Lemma baseline_values_pos_finite :
  Forall (λ b, pos_finite b = true) (baseline_values (F:=float)).
Proof.
  apply Forall_forall. intros b Hb%list_elem_of_In.
  assert (forallb pos_finite baseline_values = true) as Hall
    by (vm_compute; reflexivity).
  rewrite forallb_forall in Hall. by apply Hall.
Qed.

(** A literal factor times a price in the clamp range cannot overflow. *)
Lemma smoothing_term_finite p :
  in_clamp_range p = true → well_formed p = true →
  is_finite ($0.8 * p)%A = true ∧ well_formed ($0.8 * p)%A = true.
Proof.
  intros (m & e & -> & He)%in_clamp_range_finite Hwf.
  float_ops. rewrite lit_0_8. split.
  - apply SFmul_no_overflow; [lia|].
    unfold well_formed in Hwf. apply Z.leb_le in Hwf. unfold prec in Hwf.
    change (Zdigits2 7205759403792794) with 53. lia.
  - by apply SFmul_finite_l.
Qed.

Section Step.

Context {G : Type} {rs : RandomState float G}.
Hypothesis Hdraws : numpy_draws rs.

Lemma smooth_well_formed prev base noise :
  ok_prev prev → pos_finite base = true → is_nan noise = false →
  well_formed (smooth prev base noise) = true.
Proof.
  intros Hprev Hbase Hnoise.
  assert (well_formed (base + noise)%A = true) as Hbn.
  { destruct base as [| | |[] m e]; try done.
    float_ops. by apply SFadd_finite_l. }
  destruct prev as [p|]; unfold smooth; [|done].
  destruct Hprev as [Hr Hwf].
  destruct (smoothing_term_finite p Hr Hwf) as [Hfin Hwf'].
  float_ops. apply SFadd_wf; [done| |done].
  rewrite lit_0_2. by apply SFmul_finite_l, well_formed_not_nan.
Qed.

Lemma spike_well_formed raw (g : G) spiked g' :
  well_formed raw = true → spike raw g spiked g' →
  well_formed spiked = true.
Proof.
  intros Hraw [u g1 m g2 Hu Hlt Hm|u g1 Hu Hlt]; [|done].
  destruct Hdraws as [_ Hunif].
  destruct (Hunif $1.5 $3.5 g1) as [Hlo Hhi]; [by vm_compute|].
  rewrite Hm in Hlo, Hhi. cbn [fst] in Hlo, Hhi.
  assert (∃ s mm e, m = S754_finite s mm e) as (s & mm & e & ->).
  { destruct m as [[]|[]| |s mm e]; [..|by eauto];
      revert Hlo Hhi; by vm_compute. }
  float_ops. by apply SFmul_finite_r, well_formed_not_nan.
Qed.

Lemma hourly_step_in_range prev dt (g : G) p g' :
  ok_prev prev → hourly_step prev dt g p g' →
  in_clamp_range p = true ∧ well_formed p = true.
Proof.
  intros Hprev [base noise g1 spiked g2 Hb Hn Hs].
  assert (pos_finite base = true) as Hbase.
  { pose proof baseline_values_pos_finite as Hall.
    rewrite Forall_forall in Hall.
    by apply Hall, (baseline_in_values dt). }
  assert (is_nan noise = false) as Hnoise.
  { destruct Hdraws as [Hnorm _]. specialize (Hnorm $0.0 $0.002 g).
    by rewrite Hn in Hnorm. }
  pose proof (smooth_well_formed prev base noise Hprev Hbase Hnoise) as Hraw.
  pose proof (spike_well_formed _ _ _ _ Hraw Hs) as Hsp.
  split; [by apply clamp_in_range, well_formed_not_nan|].
  by apply clamp_well_formed.
Qed.

Lemma series_in_range prev ts (g : G) ps g' :
  ok_prev prev → series prev ts g ps g' →
  Forall (λ p, in_clamp_range p = true ∧ well_formed p = true) ps.
Proof.
  intros Hprev Hs. induction Hs as [|prev dt ts g p g1 ps g' Hstep Hs IH].
  - constructor.
  - pose proof (hourly_step_in_range _ _ _ _ _ Hprev Hstep) as Hp.
    constructor; [done|]. by apply IH.
Qed.

End Step.
End Binary64Facts.

(** ** The run in binary64 *)

Module Binary64Run.

Import Binary64 Binary64Facts.

Lemma SFleb_refl x : is_nan x = false → SFleb x x = true.
Proof.
  destruct x as [[]|[]| |[] m e]; try done; intros _;
    unfold SFleb, SFcompare;
    by rewrite Z.compare_refl, Pos.compare_cont_refl.
Qed.

Lemma SFleb_not_nan_l x y : SFleb x y = true → is_nan x = false.
Proof. by destruct x. Qed.

Lemma counting_numpy_draws : numpy_draws counting_random_state.
Proof.
  split.
  - intros loc scale g. cbn. by destruct (Nat.even g).
  - intros low high g Hle. cbn. split; [|done].
    apply SFleb_refl. by eapply SFleb_not_nan_l.
Qed.

Lemma parity_numpy_draws : numpy_draws parity_random_state.
Proof.
  split.
  - intros loc scale g. cbn. by destruct g.
  - intros low high g Hle. cbn. split; [|done].
    apply SFleb_refl. by eapply SFleb_not_nan_l.
Qed.

Lemma in_clamp_range_leb p :
  in_clamp_range p = true ↔ leb $0.02 p = true ∧ leb p $0.40 = true.
Proof. unfold in_clamp_range. apply andb_true_iff. Qed.

(** Under numpy's draws, the run returns and every price it emitted is a
    positive finite float between the clamp bounds. *)
Lemma generate_prices_run_in_range {G : Type} (rs : RandomState float G) (g : G) :
  numpy_draws rs →
  ∃ ps g',
    series None timestamps g ps g' ∧
    Forall (λ p, in_clamp_range p = true ∧ well_formed p = true) ps ∧
    length ps = length timestamps ∧
    generate_prices g =
      inr (mk_output
             (zip ((λ dt, value dt / ns_per_ms) <$> timestamps) ps)
             [ [Str "Generated test_set_2021-2024.parquet with ";
                Int (length timestamps); Str " rows."];
               [Str "Example price range:"; Flt (series_min ps);
                Str "to"; Flt (series_max ps); Str "€/kWh"] ],
           g').
Proof.
  intros Hdraws.
  destruct (generate_prices_run g) as (ps & g' & Hs & Hrun).
  exists ps, g'. split; [done|]. split; [|split; [|done]].
  - by apply (series_in_range Hdraws None timestamps g ps g').
  - by eapply series_length.
Qed.

End Binary64Run.

(** ** Two generators that make the same draws *)

Section SameDraws.

Context {F : Type} {AF : Arith F} {G1 G2 : Type}.
Context (rs1 : RandomState F G1) (rs2 : RandomState F G2).
Context (R : G1 → G2 → Prop).
Hypothesis Hsame : same_draws rs1 rs2 R.

Lemma spike_same raw g1 g2 s1 s2 g1' g2' :
  R g1 g2 →
  spike (rs:=rs1) raw g1 s1 g1' → spike (rs:=rs2) raw g2 s2 g2' →
  s1 = s2 ∧ R g1' g2'.
Proof.
  destruct Hsame as (_ & Hrand & Hunif). intros HR H1 H2.
  destruct H1 as [u h1 m h2 Hu Hlt Hm|u h1 Hu Hlt],
           H2 as [v k1 n k2 Hv Hlt' Hn|v k1 Hv Hlt'];
    destruct (Hrand _ _ HR) as [Heq HR1];
    rewrite Hu, Hv in Heq, HR1; cbn [fst snd] in Heq, HR1; subst v;
    try congruence.
  - destruct (Hunif $1.5 $3.5 _ _ HR1) as [Heq HR2].
    rewrite Hm, Hn in Heq, HR2. cbn [fst snd] in Heq, HR2. by subst n.
  - done.
Qed.

Lemma hourly_step_same prev dt g1 g2 p1 p2 g1' g2' :
  R g1 g2 →
  hourly_step (rs:=rs1) prev dt g1 p1 g1' →
  hourly_step (rs:=rs2) prev dt g2 p2 g2' →
  p1 = p2 ∧ R g1' g2'.
Proof.
  destruct Hsame as (Hnorm & _ & _). intros HR H1 H2.
  destruct H1 as [b1 n1 h1 s1 h2 Hb1 Hn1 Hs1],
           H2 as [b2 n2 k1 s2 k2 Hb2 Hn2 Hs2].
  rewrite Hb1 in Hb2. injection Hb2 as <-.
  destruct (Hnorm $0.0 $0.002 _ _ HR) as [Heq HR1].
  rewrite Hn1, Hn2 in Heq, HR1. cbn [fst snd] in Heq, HR1. subst n2.
  destruct (spike_same _ _ _ _ _ _ _ HR1 Hs1 Hs2) as [-> HR2]. done.
Qed.

Lemma series_same prev ts g1 g2 ps1 ps2 g1' g2' :
  R g1 g2 →
  series (rs:=rs1) prev ts g1 ps1 g1' →
  series (rs:=rs2) prev ts g2 ps2 g2' →
  ps1 = ps2 ∧ R g1' g2'.
Proof.
  intros HR H1. revert g2 ps2 g2' HR.
  induction H1 as [prev g1|prev dt ts g1 p h1 ps g1' Hstep Hs IH];
    intros g2 ps2 g2' HR H2; inversion H2; subst.
  - done.
  - match goal with
    | Hstep2 : hourly_step _ _ g2 _ _ |- _ =>
        destruct (hourly_step_same _ _ _ _ _ _ _ _ HR Hstep Hstep2) as [<- HR1]
    end.
    match goal with
    | Hs2 : series (Some p) _ _ _ _ |- _ =>
        destruct (IH _ _ _ HR1 Hs2) as [-> HR2]
    end. done.
Qed.

End SameDraws.

Lemma counting_parity_same_draws :
  same_draws counting_random_state parity_random_state
    (λ n b, b = Nat.even n).
Proof.
  assert (∀ n, negb (Nat.even n) = Nat.even (S n)) as Hev.
  { intros n. rewrite Nat.even_succ. by rewrite <- Nat.negb_even. }
  repeat split; intros; subst; cbn; auto.
Qed.

(** ** Binary64: rounding errors *)

Module Binary64Rounding.

Import Binary64 Binary64Facts.

(** *** Powers of two and the value of a mantissa and exponent *)

Lemma pow2_pos e : (0 < pow2 e)%Q.
Proof. apply Qpower_0_lt. reflexivity. Qed.

Lemma pow2_add a b : (pow2 (a + b) == pow2 a * pow2 b)%Q.
Proof. apply Qpower_plus. discriminate. Qed.

Lemma pow2_le a b : a <= b → (pow2 a <= pow2 b)%Q.
Proof. intros Hab. apply Qpower_le_compat_l; [exact Hab|discriminate]. Qed.

Lemma pow2_Z n : 0 <= n → (pow2 n == inject_Z (2 ^ n))%Q.
Proof. intros Hn. unfold pow2. by rewrite Zpower_Qpower. Qed.

Lemma pow2_succ e : (pow2 (e + 1) == 2 * pow2 e)%Q.
Proof. rewrite pow2_add. change (pow2 1) with 2%Q. ring. Qed.

Lemma F2Q_shift m e n : 0 <= n → (F2Q (m * 2 ^ n) e == F2Q m (e + n))%Q.
Proof.
  intros Hn. unfold F2Q. rewrite pow2_add, (pow2_Z n Hn), inject_Z_mult. ring.
Qed.

Lemma F2Q_le m1 m2 e : m1 <= m2 → (F2Q m1 e <= F2Q m2 e)%Q.
Proof.
  intros Hm. unfold F2Q. apply Qmult_le_compat_r.
  - by rewrite <- Zle_Qle.
  - apply Qlt_le_weak, pow2_pos.
Qed.

Lemma F2Q_lt m1 m2 e : m1 < m2 → (F2Q m1 e < F2Q m2 e)%Q.
Proof.
  intros Hm. unfold F2Q. apply Qmult_lt_compat_r; [apply pow2_pos|].
  by rewrite <- Zlt_Qlt.
Qed.

Lemma F2Q_add m1 m2 e : (F2Q (m1 + m2) e == F2Q m1 e + F2Q m2 e)%Q.
Proof. unfold F2Q. rewrite inject_Z_plus. ring. Qed.

Lemma F2Q_1 e : (F2Q 1 e == pow2 e)%Q.
Proof. unfold F2Q. change (inject_Z 1) with 1%Q. ring. Qed.

Lemma F2Q_mul m1 e1 m2 e2 :
  (F2Q (m1 * m2) (e1 + e2) == F2Q m1 e1 * F2Q m2 e2)%Q.
Proof. unfold F2Q. rewrite inject_Z_mult, pow2_add. ring. Qed.

Lemma to_Q_finite m e :
  (to_Q (S754_finite false m e) == F2Q (Z.pos m) e)%Q.
Proof.
  unfold to_Q, F2Q. destruct (Z.leb_spec 0 e) as [He|He].
  - by rewrite (pow2_Z e He).
  - assert (pow2 e == / inject_Z (2 ^ (- e)))%Q as ->; [|reflexivity].
    unfold pow2. rewrite (Zpower_Qpower 2 (- e)) by lia.
    rewrite <- Qpower_opp. by replace (- - e) with e by lia.
Qed.

(** *** Digits *)

Lemma Zdigits2_bounds m :
  0 < m → 2 ^ (Zdigits2 m - 1) <= m < 2 ^ Zdigits2 m.
Proof.
  intros Hm. destruct m as [|p|p]; try lia.
  rewrite Zdigits2_pos.
  pose proof (Z.log2_spec (Z.pos p) Hm) as Hs.
  replace (Z.log2 (Z.pos p) + 1 - 1) with (Z.log2 (Z.pos p)) by lia.
  replace (Z.log2 (Z.pos p) + 1) with (Z.succ (Z.log2 (Z.pos p))) by lia.
  exact Hs.
Qed.

Lemma Zdigits2_unique m d :
  0 < m → 2 ^ (d - 1) <= m < 2 ^ d → Zdigits2 m = d.
Proof.
  intros Hm [H1 H2]. destruct m as [|p|p]; try lia.
  rewrite Zdigits2_pos.
  assert (0 < d) as Hd.
  { destruct (Z.ltb_spec 0 d) as [|Hd]; [done|].
    assert (2 ^ d <= 1); [|lia].
    destruct (Z.eq_dec d 0) as [->|Hne]; [simpl; lia|].
    rewrite Z.pow_neg_r; lia. }
  apply Z.log2_lt_pow2 in H2; [|done].
  apply Z.log2_le_pow2 in H1; [|done]. lia.
Qed.

Lemma Zdigits2_le m1 m2 : 0 <= m1 <= m2 → Zdigits2 m1 <= Zdigits2 m2.
Proof.
  intros [H1 H2]. destruct m1 as [|p|p]; [apply Zdigits2_nonneg| |lia].
  destruct m2 as [|q|q]; try lia.
  rewrite !Zdigits2_pos. pose proof (Z.log2_le_mono _ _ H2). lia.
Qed.

Lemma Zdigits2_shift m n :
  0 < m → 0 <= n → Zdigits2 (m * 2 ^ n) = Zdigits2 m + n.
Proof.
  intros Hm Hn. destruct m as [|p|p]; try lia.
  assert (0 < Z.pos p * 2 ^ n) as Hpos by (apply Z.mul_pos_pos; lia).
  destruct (Z.pos p * 2 ^ n) as [|q|q] eqn:E; try lia.
  rewrite !Zdigits2_pos, <- E, Z.log2_mul_pow2 by lia. lia.
Qed.

Lemma Zdigits2_mul_below a b :
  Zdigits2 (Z.pos a) + Zdigits2 (Z.pos b) - 1 <= Zdigits2 (Z.pos (a * b)).
Proof.
  rewrite !Zdigits2_pos, Pos2Z.inj_mul.
  pose proof (Z.log2_mul_below (Z.pos a) (Z.pos b)). lia.
Qed.

(** *** What a right shift does to the mantissa *)

Lemma shr_1_m mrs : 0 <= shr_m mrs → shr_m (shr_1 mrs) = shr_m mrs / 2.
Proof.
  destruct mrs as [m r s]. cbn [shr_m]. intros Hm.
  destruct m as [|[p|p|]|p]; try lia; cbn [shr_1 shr_m].
  all: first [ reflexivity
             | apply Z.div_unique with 1; lia
             | apply Z.div_unique with 0; lia ].
Qed.

Lemma iter_shr_1_m p mrs :
  0 <= shr_m mrs →
  shr_m (SpecFloat.iter_pos shr_1 p mrs) = shr_m mrs / 2 ^ Z.pos p.
Proof.
  assert (∀ q, 0 < 2 ^ Z.pos q) as Hpow by (intros q; apply Z.pow_pos_nonneg; lia).
  revert mrs. induction p as [p IH|p IH|]; intros mrs Hm; cbn [SpecFloat.iter_pos].
  - pose proof (shr_1_digits mrs Hm) as [H1 _].
    pose proof (iter_shr_1_digits p _ H1) as [H2 _].
    rewrite IH, IH, shr_1_m by done.
    pose proof (Hpow p).
    rewrite !Z.div_div by lia. f_equal.
    replace (Z.pos p~1) with (1 + Z.pos p + Z.pos p) by lia.
    rewrite !Z.pow_add_r by lia. lia.
  - pose proof (iter_shr_1_digits p _ Hm) as [H2 _].
    rewrite IH, IH by done.
    pose proof (Hpow p).
    rewrite !Z.div_div by lia. f_equal.
    replace (Z.pos p~0) with (Z.pos p + Z.pos p) by lia.
    rewrite !Z.pow_add_r by lia. lia.
  - by apply shr_1_m.
Qed.

(** Shifting to the target exponent truncates: the value does not grow and
    loses less than one unit of the new exponent. *)
Lemma shr_fexp_value m e l :
  0 <= m →
  let r := shr_fexp prec emax m e l in
  r.2 = Z.max e (fexp prec emax (Zdigits2 m + e)) ∧
  0 <= shr_m r.1 ∧
  shr_m r.1 = m / 2 ^ (r.2 - e) ∧
  (F2Q (shr_m r.1) r.2 <= F2Q m e)%Q ∧
  (F2Q m e < F2Q (shr_m r.1) r.2 + pow2 r.2)%Q.
Proof.
  intros Hm. pose proof (shr_fexp_spec m e l Hm) as (H0 & _ & _ & He).
  cbv zeta in *. split; [exact He|]. split; [exact H0|].
  unfold shr_fexp, shr in *.
  destruct (fexp prec emax (Zdigits2 m + e) - e) as [|p|p] eqn:En;
    cbn [fst snd] in *; rewrite ?shr_record_of_loc_m in *.
  - replace (e - e) with 0 by lia. rewrite Z.div_1_r.
    split; [reflexivity|]. split; [apply Qle_refl|].
    pose proof (pow2_pos e). lra.
  - rewrite iter_shr_1_m by by rewrite shr_record_of_loc_m.
    rewrite shr_record_of_loc_m.
    replace (e + Z.pos p - e) with (Z.pos p) by lia.
    split; [reflexivity|].
    assert (0 < 2 ^ Z.pos p) as Hp by (apply Z.pow_pos_nonneg; lia).
    pose proof (Z.div_mod m (2 ^ Z.pos p) ltac:(lia)) as Hdm.
    pose proof (Z.mod_pos_bound m (2 ^ Z.pos p) Hp) as Hmod.
    set (q := m / 2 ^ Z.pos p) in *.
    rewrite <- !(F2Q_shift _ e (Z.pos p)) by lia.
    split.
    + apply F2Q_le. lia.
    + assert (pow2 (e + Z.pos p) == F2Q (2 ^ Z.pos p) e)%Q as ->.
      { unfold F2Q. rewrite pow2_add, (pow2_Z (Z.pos p)) by lia. ring. }
      rewrite <- F2Q_add. apply F2Q_lt. lia.
  - replace (e - e) with 0 by lia. rewrite Z.div_1_r.
    split; [reflexivity|]. split; [apply Qle_refl|].
    pose proof (pow2_pos e). lra.
Qed.


Lemma round_nearest_even_cases m l :
  round_nearest_even m l = m ∨ round_nearest_even m l = m + 1.
Proof. destruct l as [|[]]; cbn; try destruct (Z.even m); auto. Qed.

(** Rounding a mantissa of at least [prec] bits, away from underflow and
    overflow: the result is a normal number within one unit in the last
    place of the value rounded. *)
Lemma binary_round_aux_normal s mx ex l :
  0 < mx → 53 <= Zdigits2 mx →
  -1074 <= Zdigits2 mx + ex - 53 <= 970 →
  ∃ m e,
    binary_round_aux prec emax s mx ex l = S754_finite s m e ∧
    Zdigits2 (Z.pos m) = 53 ∧
    Zdigits2 mx + ex - 53 <= e <= Zdigits2 mx + ex - 52 ∧
    (F2Q mx ex - pow2 (Zdigits2 mx + ex - 53) <= F2Q (Z.pos m) e)%Q ∧
    (F2Q (Z.pos m) e <= F2Q mx ex + pow2 (Zdigits2 mx + ex - 53))%Q.
Proof.
  intros Hmx Hd Hrange.
  set (d := Zdigits2 mx) in *. set (e1 := d + ex - 53) in *.
  unfold binary_round_aux.
  pose proof (shr_fexp_value mx ex l ltac:(lia)) as H1.
  destruct (shr_fexp prec emax mx ex l) as [mrs1 e1']. cbn [fst snd] in H1.
  destruct H1 as (He1 & Hm1 & Hm1eq & Hlo1 & Hhi1).
  fold d in He1. unfold fexp, emin, prec, emax in He1.
  assert (e1' = e1) as -> by (unfold e1; lia).
  replace (e1 - ex) with (d - 53) in Hm1eq by (unfold e1; lia).
  pose proof (Zdigits2_bounds mx Hmx) as [Hb1 Hb2]. fold d in Hb1, Hb2.
  assert (0 < 2 ^ (d - 53)) as Hp by (apply Z.pow_pos_nonneg; lia).
  assert (2 ^ 52 <= shr_m mrs1 < 2 ^ 53) as [Hm1lo Hm1hi].
  { rewrite Hm1eq. split.
    - apply Z.div_le_lower_bound; [done|].
      rewrite <- Z.pow_add_r by lia. by replace (d - 53 + 52) with (d - 1) by lia.
    - apply Z.div_lt_upper_bound; [done|].
      rewrite <- Z.pow_add_r by lia. by replace (d - 53 + 53) with d by lia. }
  set (m1 := shr_m mrs1) in *.
  set (m2 := round_nearest_even m1 (loc_of_shr_record mrs1)).
  assert (m2 = m1 ∨ m2 = m1 + 1) as Hm2 by apply round_nearest_even_cases.
  assert (0 < m2) as Hm2pos by lia.
  pose proof (shr_fexp_value m2 e1 loc_Exact ltac:(lia)) as H2.
  destruct (shr_fexp prec emax m2 e1 loc_Exact) as [mrs2 e2]. cbn [fst snd] in H2.
  destruct H2 as (He2 & Hm3 & Hm3eq & _ & _).
  unfold fexp, emin, prec, emax in He2.
  assert (F2Q m1 e1 <= F2Q m2 e1 ∧ F2Q m2 e1 <= F2Q m1 e1 + pow2 e1)%Q as [Hr1 Hr2].
  { destruct Hm2 as [-> | ->].
    - pose proof (pow2_pos e1). split; lra.
    - rewrite F2Q_add, F2Q_1. split; lra. }
  unfold prec, emax.
  destruct (Z.ltb_spec m2 (2 ^ 53)) as [Hlt|Hge].
  - assert (Zdigits2 m2 = 53) as Hd2
      by (apply Zdigits2_unique; [done|]; change (53 - 1) with 52; lia).
    rewrite Hd2 in He2. assert (e2 = e1) as -> by lia.
    replace (e1 - e1) with 0 in Hm3eq by lia. rewrite Z.div_1_r in Hm3eq.
    rewrite Hm3eq. destruct m2 as [|m|m] eqn:Em2; try lia.
    exists m, e1. rewrite (proj2 (Z.leb_le e1 (1024 - 53))) by (unfold e1; lia).
    split; [reflexivity|]. split; [exact Hd2|]. split; [unfold e1; lia|].
    split; lra.
  - assert (m2 = 2 ^ 53) as Hm2eq by lia.
    assert (Zdigits2 m2 = 54) as Hd2
      by (apply Zdigits2_unique; [done|]; rewrite Hm2eq; change (54 - 1) with 53; lia).
    rewrite Hd2 in He2. assert (e2 = e1 + 1) as -> by lia.
    replace (e1 + 1 - e1) with 1 in Hm3eq by lia.
    rewrite Hm2eq in Hm3eq. change (2 ^ 53 / 2 ^ 1) with (2 ^ 52) in Hm3eq.
    rewrite Hm3eq. change (2 ^ 52) with (Z.pos (2 ^ 52)%positive).
    exists (2 ^ 52)%positive, (e1 + 1).
    rewrite (proj2 (Z.leb_le (e1 + 1) (1024 - 53))) by (unfold e1; lia).
    split; [reflexivity|]. split; [reflexivity|]. split; [unfold e1; lia|].
    assert (F2Q (Z.pos (2 ^ 52)) (e1 + 1) == F2Q m2 e1)%Q as ->.
    { rewrite Hm2eq, <- (F2Q_shift (Z.pos (2 ^ 52)) e1 1) by lia. reflexivity. }
    split; lra.
Qed.


(** *** Products and sums of normal positive numbers *)

Lemma SFmul_normal m1 e1 m2 e2 :
  Zdigits2 (Z.pos m1) = 53 → Zdigits2 (Z.pos m2) = 53 →
  -1074 <= e1 + e2 + 52 → e1 + e2 + 53 <= 970 →
  ∃ m e,
    SFmul prec emax (S754_finite false m1 e1) (S754_finite false m2 e2)
      = S754_finite false m e ∧
    Zdigits2 (Z.pos m) = 53 ∧
    e1 + e2 + 52 <= e <= e1 + e2 + 54 ∧
    (F2Q (Z.pos m1) e1 * F2Q (Z.pos m2) e2 - pow2 (e1 + e2 + 53)
       <= F2Q (Z.pos m) e)%Q ∧
    (F2Q (Z.pos m) e
       <= F2Q (Z.pos m1) e1 * F2Q (Z.pos m2) e2 + pow2 (e1 + e2 + 53))%Q.
Proof.
  intros D1 D2 Hlo Hhi. cbn [SFmul xorb].
  pose proof (Zdigits2_mul m1 m2) as Hup.
  pose proof (Zdigits2_mul_below m1 m2) as Hdown.
  rewrite D1, D2 in Hup, Hdown.
  destruct (binary_round_aux_normal false (Z.pos (m1 * m2)) (e1 + e2) loc_Exact)
    as (m & e & Heq & Dm & He & Hl & Hu); [lia|lia|lia|].
  exists m, e. split; [exact Heq|]. split; [exact Dm|]. split; [lia|].
  rewrite Pos2Z.inj_mul, F2Q_mul in Hl, Hu.
  pose proof (pow2_le (Zdigits2 (Z.pos m1 * Z.pos m2) + (e1 + e2) - 53)
                (e1 + e2 + 53)) as Hp.
  rewrite Pos2Z.inj_mul in Hup. specialize (Hp ltac:(lia)).
  split; lra.
Qed.

Lemma iter_xO m d : Z.pos (Pos.iter xO m d) = Z.pos m * 2 ^ Z.pos d.
Proof.
  induction d as [|d IH] using Pos.peano_ind.
  - cbn. lia.
  - rewrite Pos.iter_succ, Pos2Z.inj_xO, IH, Pos2Z.inj_succ, Z.pow_succ_r by lia.
    lia.
Qed.

Lemma shl_align_fst m e ez :
  ez <= e → Z.pos (shl_align m e ez).1 = Z.pos m * 2 ^ (e - ez).
Proof.
  intros He. unfold shl_align.
  destruct (ez - e) as [|d|d] eqn:Ed; cbn [fst]; try lia.
  - replace (e - ez) with 0 by lia. lia.
  - rewrite iter_xO. f_equal. f_equal. lia.
Qed.

Lemma SFadd_normal mA eA mB eB :
  Zdigits2 (Z.pos mA) = 53 → Zdigits2 (Z.pos mB) = 53 →
  -1074 <= Z.max eA eB → Z.max eA eB + 1 <= 970 →
  ∃ m e,
    SFadd prec emax (S754_finite false mA eA) (S754_finite false mB eB)
      = S754_finite false m e ∧
    Zdigits2 (Z.pos m) = 53 ∧
    Z.max eA eB <= e <= Z.max eA eB + 2 ∧
    (F2Q (Z.pos mA) eA + F2Q (Z.pos mB) eB - pow2 (Z.max eA eB + 1)
       <= F2Q (Z.pos m) e)%Q ∧
    (F2Q (Z.pos m) e
       <= F2Q (Z.pos mA) eA + F2Q (Z.pos mB) eB + pow2 (Z.max eA eB + 1))%Q.
Proof.
  intros DA DB Hlo Hhi. cbn [SFadd cond_Zopp].
  set (ez := Z.min eA eB). set (eM := Z.max eA eB) in *.
  rewrite (shl_align_fst mA eA ez), (shl_align_fst mB eB ez) by (unfold ez; lia).
  set (a := Z.pos mA * 2 ^ (eA - ez)). set (b := Z.pos mB * 2 ^ (eB - ez)).
  assert (0 <= eA - ez ∧ 0 <= eB - ez) as [HsA HsB] by (unfold ez; lia).
  assert (Zdigits2 a = 53 + (eA - ez)) as Da
    by (unfold a; rewrite Zdigits2_shift, DA; lia).
  assert (Zdigits2 b = 53 + (eB - ez)) as Db
    by (unfold b; rewrite Zdigits2_shift, DB; lia).
  assert (0 < a) as Ha by (unfold a; apply Z.mul_pos_pos; [lia|apply Z.pow_pos_nonneg; lia]).
  assert (0 < b) as Hb by (unfold b; apply Z.mul_pos_pos; [lia|apply Z.pow_pos_nonneg; lia]).
  pose proof (Zdigits2_bounds a Ha) as [Ha1 Ha2].
  pose proof (Zdigits2_bounds b Hb) as [Hb1 Hb2].
  rewrite Da in Ha1, Ha2. rewrite Db in Hb1, Hb2.
  assert (53 + (eM - ez) <= Zdigits2 (a + b) <= 54 + (eM - ez)) as Hd.
  { assert (2 ^ (53 + (eM - ez) - 1) <= a + b) as Hlow.
    { destruct (Z.le_ge_cases eA eB).
      - replace eM with eB by (unfold eM; lia). lia.
      - replace eM with eA by (unfold eM; lia). lia. }
    assert (a + b < 2 ^ (54 + (eM - ez))) as Hupp.
    { replace (54 + (eM - ez)) with (Z.succ (53 + (eM - ez))) by lia.
      rewrite Z.pow_succ_r by (unfold eM, ez; lia).
      assert (2 ^ (53 + (eA - ez)) <= 2 ^ (53 + (eM - ez)))
        by (apply Z.pow_le_mono_r; unfold eM; lia).
      assert (2 ^ (53 + (eB - ez)) <= 2 ^ (53 + (eM - ez)))
        by (apply Z.pow_le_mono_r; unfold eM; lia).
      lia. }
    split.
    - rewrite <- (Zdigits2_unique (2 ^ (53 + (eM - ez) - 1)) (53 + (eM - ez))).
      + apply Zdigits2_le. split; [apply Z.pow_nonneg; lia|exact Hlow].
      + apply Z.pow_pos_nonneg; unfold eM, ez; lia.
      + split; [lia|]. apply Z.pow_lt_mono_r; unfold eM, ez; lia.
    - destruct (Z.le_gt_cases (Zdigits2 (a + b)) (54 + (eM - ez))) as [|Hgt]; [done|].
      pose proof (Zdigits2_bounds (a + b) ltac:(lia)) as [Hc1 _].
      assert (2 ^ (54 + (eM - ez)) <= 2 ^ (Zdigits2 (a + b) - 1))
        by (apply Z.pow_le_mono_r; lia).
      lia. }
  destruct (a + b) as [|mz|mz] eqn:Emz; try lia.
  cbn [binary_normalize]. unfold binary_round.
  assert (shl_align mz ez (fexp prec emax (Z.pos (digits2_pos mz) + ez)) = (mz, ez))
    as ->.
  { unfold shl_align, fexp, emin, prec, emax.
    change (Z.pos (digits2_pos mz)) with (Zdigits2 (Z.pos mz)).
    destruct (Z.max (Zdigits2 (Z.pos mz) + ez - 53) (3 - 1024 - 53) - ez)
      as [|q|q] eqn:Eq; try reflexivity. lia. }
  destruct (binary_round_aux_normal false (Z.pos mz) ez loc_Exact)
    as (m & e & Heq & Dm & He & Hl & Hu); [lia|lia|unfold eM, ez in *; lia|].
  exists m, e. split; [exact Heq|]. split; [exact Dm|].
  split; [unfold eM, ez in *; lia|].
  assert (F2Q (Z.pos mz) ez == F2Q (Z.pos mA) eA + F2Q (Z.pos mB) eB)%Q as Hval.
  { rewrite <- Emz, F2Q_add. unfold a, b.
    rewrite !F2Q_shift by lia.
    by replace (ez + (eA - ez)) with eA by lia;
       replace (ez + (eB - ez)) with eB by lia. }
  rewrite Hval in Hl, Hu.
  pose proof (pow2_le (Zdigits2 (Z.pos mz) + ez - 53) (eM + 1)) as Hp.
  specialize (Hp ltac:(unfold eM, ez in *; lia)).
  split; lra.
Qed.

End Binary64Rounding.

(** ** Binary64: the smoothing recurrence without noise *)

Module Binary64Quiet.

Import Binary64 Binary64Facts Binary64Rounding.

Lemma F2Q_pow2 n e : 0 <= n → (F2Q (2 ^ n) e == pow2 (e + n))%Q.
Proof.
  intros Hn. rewrite <- (Z.mul_1_l (2 ^ n)), F2Q_shift, F2Q_1 by done.
  reflexivity.
Qed.

Lemma normal_bounds m e :
  Zdigits2 (Z.pos m) = 53 →
  (pow2 (e + 52) <= F2Q (Z.pos m) e)%Q ∧ (F2Q (Z.pos m) e < pow2 (e + 53))%Q.
Proof.
  intros D. destruct (Zdigits2_bounds (Z.pos m)) as [H1 H2]; [lia|].
  rewrite D in H1, H2. split.
  - rewrite <- (F2Q_pow2 52 e) by lia. by apply F2Q_le.
  - rewrite <- (F2Q_pow2 53 e) by lia. by apply F2Q_lt.
Qed.

(** Among normal numbers the order of the floats is the order of their
    values. *)
Lemma normal_lt m1 e1 m2 e2 :
  Zdigits2 (Z.pos m1) = 53 → Zdigits2 (Z.pos m2) = 53 →
  SFltb (S754_finite false m1 e1) (S754_finite false m2 e2) = true →
  (F2Q (Z.pos m1) e1 < F2Q (Z.pos m2) e2)%Q.
Proof.
  intros D1 D2 [He|[-> Hm]]%SFltb_pos_spec.
  - destruct (normal_bounds m1 e1 D1) as [_ H1].
    destruct (normal_bounds m2 e2 D2) as [H2 _].
    pose proof (pow2_le (e1 + 53) (e2 + 52) ltac:(lia)). lra.
  - apply F2Q_lt. lia.
Qed.

Lemma normal_le m1 e1 m2 e2 :
  Zdigits2 (Z.pos m1) = 53 → Zdigits2 (Z.pos m2) = 53 →
  SFleb (S754_finite false m1 e1) (S754_finite false m2 e2) = true →
  (F2Q (Z.pos m1) e1 <= F2Q (Z.pos m2) e2)%Q.
Proof.
  intros D1 D2 [He|[-> Hm]]%SFleb_pos_spec.
  - destruct (normal_bounds m1 e1 D1) as [_ H1].
    destruct (normal_bounds m2 e2 D2) as [H2 _].
    pose proof (pow2_le (e1 + 53) (e2 + 52) ltac:(lia)). lra.
  - apply F2Q_le. lia.
Qed.

Lemma valid_price_normal p :
  valid_binary prec emax p = true → in_clamp_range p = true → normal_price p.
Proof.
  intros Hv Hr. split; [exact Hr|].
  destruct (in_clamp_range_finite p Hr) as (m & e & -> & He).
  exists m, e. split; [reflexivity|].
  cbn [valid_binary] in Hv. unfold bounded in Hv.
  apply andb_prop in Hv as [Hc _]. unfold canonical_mantissa in Hc.
  change (Z.pos (digits2_pos m)) with (Zdigits2 (Z.pos m)) in Hc.
  apply Z.eqb_eq in Hc. unfold fexp, emin, prec, emax in Hc. lia.
Qed.

Lemma normal_price_exp m e :
  in_clamp_range (S754_finite false m e) = true → -58 <= e <= -54.
Proof.
  intros (m' & e' & Heq & He)%in_clamp_range_finite.
  injection Heq as -> ->. exact He.
Qed.

Lemma pow2_m52 : (pow2 (-52) == 2 # 9007199254740992)%Q.
Proof. reflexivity. Qed.
Lemma pow2_m54 : (pow2 (-54) == 1 # 18014398509481984)%Q.
Proof. reflexivity. Qed.
Lemma pow2_m56 : (pow2 (-56) == 1 # 72057594037927936)%Q.
Proof. reflexivity. Qed.
Lemma pow2_m1 : (pow2 (-1) == 1 # 2)%Q.
Proof. reflexivity. Qed.

Lemma value_0_8 :
  (F2Q 7205759403792794 (-53) == 7205759403792794 # 9007199254740992)%Q.
Proof. reflexivity. Qed.

Lemma value_0_2 :
  (F2Q 7205759403792794 (-55) == 7205759403792794 # 36028797018963968)%Q.
Proof. reflexivity. Qed.

(** The noise-free blend of two prices, as the loop computes it, is a
    normal number within [blend_error] of the exact blend. *)
Lemma blend_close m e mb eb :
  Zdigits2 (Z.pos m) = 53 → -58 <= e <= -54 →
  Zdigits2 (Z.pos mb) = 53 → -58 <= eb <= -54 →
  ∃ mr er,
    ($0.8 * S754_finite false m e + $0.2 * S754_finite false mb eb)%A
      = S754_finite false mr er ∧
    Zdigits2 (Z.pos mr) = 53 ∧
    ((4 # 5) * F2Q (Z.pos m) e + (1 # 5) * F2Q (Z.pos mb) eb - blend_error
       <= F2Q (Z.pos mr) er)%Q ∧
    (F2Q (Z.pos mr) er
       <= (4 # 5) * F2Q (Z.pos m) e + (1 # 5) * F2Q (Z.pos mb) eb + blend_error)%Q.
Proof.
  intros D He Db Heb. float_ops. rewrite lit_0_8, lit_0_2.
  destruct (SFmul_normal 7205759403792794 (-53) m e)
    as (mA & eA & -> & DA & HeA & HlA & HuA); [reflexivity|exact D|lia|lia|].
  destruct (SFmul_normal 7205759403792794 (-55) mb eb)
    as (mB & eB & -> & DB & HeB & HlB & HuB); [reflexivity|exact Db|lia|lia|].
  destruct (SFadd_normal mA eA mB eB)
    as (mr & er & -> & Dr & Her & Hlr & Hur); [exact DA|exact DB|lia|lia|].
  exists mr, er. split; [reflexivity|]. split; [exact Dr|].
  rewrite value_0_8 in HlA, HuA. rewrite value_0_2 in HlB, HuB.
  destruct (normal_bounds m e D) as [Hp0 Hp1].
  destruct (normal_bounds mb eb Db) as [Hb0 Hb1].
  pose proof (pow2_pos (e + 52)). pose proof (pow2_pos (eb + 52)).
  pose proof (pow2_le (e + 53) (-1) ltac:(lia)) as Hp2.
  pose proof (pow2_le (eb + 53) (-1) ltac:(lia)) as Hb2.
  pose proof (pow2_le (-53 + e + 53) (-54) ltac:(lia)) as HA.
  pose proof (pow2_le (-55 + eb + 53) (-56) ltac:(lia)) as HB.
  pose proof (pow2_le (Z.max eA eB + 1) (-52) ltac:(lia)) as HR.
  rewrite pow2_m1 in Hp2, Hb2. rewrite pow2_m54 in HA. rewrite pow2_m56 in HB.
  rewrite pow2_m52 in HR. unfold blend_error.
  split; lra.
Qed.

(** *** The clamp on a normal number *)

Lemma lit_0_0 : ($0.0 : float) = S754_zero false.
Proof. vm_compute. reflexivity. Qed.

Lemma normal_price_0_02 : normal_price $0.02.
Proof. split; [vm_compute; reflexivity|]. rewrite lit_0_02. by eexists _, _. Qed.

Lemma normal_price_0_40 : normal_price $0.40.
Proof. split; [vm_compute; reflexivity|]. rewrite lit_0_40. by eexists _, _. Qed.

Lemma normal_price_value p :
  normal_price p → (to_Q $0.02 <= to_Q p)%Q ∧ (to_Q p <= to_Q $0.40)%Q.
Proof.
  intros [Hr (m & e & -> & D)]. unfold in_clamp_range, leb in Hr.
  apply andb_prop in Hr as [H1 H2]. rewrite lit_0_02 in *. rewrite lit_0_40 in *.
  rewrite !to_Q_finite. split; by apply normal_le.
Qed.

Lemma clamp_normal mr er :
  Zdigits2 (Z.pos mr) = 53 →
  let raw : float := S754_finite false mr er in
  normal_price (clamp raw) ∧
  (clamp raw = raw ∨
   (clamp raw = $0.02 ∧ (to_Q raw < to_Q $0.02)%Q) ∨
   (clamp raw = $0.40 ∧ (to_Q $0.40 < to_Q raw)%Q)).
Proof.
  intros D raw.
  assert (normal_price (clamp raw)) as Hn.
  { split; [by apply clamp_in_range|].
    destruct (clamp_cases raw) as [-> | [-> | ->]].
    - apply normal_price_0_02.
    - apply normal_price_0_40.
    - by exists mr, er. }
  split; [exact Hn|]. clear Hn.
  unfold clamp, py_min, py_max. float_ops.
  destruct (SFltb raw $0.02) eqn:E1.
  - right. left. split; [vm_compute; reflexivity|].
    unfold raw in *. rewrite lit_0_02 in *. rewrite !to_Q_finite.
    by apply normal_lt.
  - destruct (SFltb $0.40 raw) eqn:E2; [|by left].
    right. right. split; [reflexivity|].
    unfold raw in *. rewrite lit_0_40 in *. rewrite !to_Q_finite.
    by apply normal_lt.
Qed.

(** *** The closed form over the rationals *)

Lemma pow_4_5_succ (n : nat) :
  ((4 # 5) ^ Z.of_nat (S n) == (4 # 5) * (4 # 5) ^ Z.of_nat n)%Q.
Proof.
  rewrite Nat2Z.inj_succ, <- Z.add_1_l, Qpower_plus by done.
  reflexivity.
Qed.

Lemma closed_form_0 (P0 B : Q) : (closed_form P0 B 0 == P0)%Q.
Proof. unfold closed_form. change ((4 # 5) ^ Z.of_nat 0)%Q with 1%Q. ring. Qed.

Lemma closed_form_succ (P0 B : Q) (n : nat) :
  (closed_form P0 B (S n) == (4 # 5) * closed_form P0 B n + (1 # 5) * B)%Q.
Proof. unfold closed_form. rewrite pow_4_5_succ. ring. Qed.

Lemma closed_form_between (L H P0 B : Q) (n : nat) :
  (L <= P0)%Q ∧ (P0 <= H)%Q → (L <= B)%Q ∧ (B <= H)%Q →
  (L <= closed_form P0 B n)%Q ∧ (closed_form P0 B n <= H)%Q.
Proof.
  intros HP HB. induction n as [|n IH].
  - rewrite closed_form_0. exact HP.
  - rewrite closed_form_succ. split; lra.
Qed.

(** *** The loop without noise and spikes *)

Section Quiet.

Context {G : Type} {rs : RandomState float G}.
Hypothesis Hnoise : noise_is_zero rs.
Hypothesis Hspike : spikes_disabled rs.

(** With a zero noise draw and no spike, an hour after the first emits the
    clamped blend of the previous price and the baseline. *)
Lemma quiet_hourly_step p b dt (g : G) q g' :
  normal_price b → baseline_price dt = inr b →
  hourly_step (Some p) dt g q g' →
  q = clamp ($0.8 * p + $0.2 * b)%A.
Proof.
  intros [_ (mb & eb & -> & _)] Hb [base noise g1 spiked g2 Hbase Hn Hs].
  rewrite Hb in Hbase. injection Hbase as <-.
  pose proof (Hnoise $0.0 $0.002 g) as Hz. rewrite Hn in Hz. cbn [fst] in Hz.
  destruct Hs as [u h1 m h2 Hu Hlt Hm|u h1 Hu Hlt].
  { pose proof (Hspike g1) as Hno. rewrite Hu in Hno. cbn [fst] in Hno.
    congruence. }
  f_equal. unfold smooth. f_equal. f_equal.
  revert Hz. float_ops. rewrite lit_0_0.
  by destruct noise as [[]|[]| |[] mn en].
Qed.

Lemma quiet_series_close (P0 : Q) b ts :
  normal_price b →
  (to_Q $0.02 <= P0)%Q ∧ (P0 <= to_Q $0.40)%Q →
  Forall (λ dt, baseline_price dt = inr b) ts →
  ∀ (k : nat) p (g : G) ps g',
    normal_price p →
    (- closed_form_tolerance <= to_Q p - closed_form P0 (to_Q b) k)%Q ∧
    (to_Q p - closed_form P0 (to_Q b) k <= closed_form_tolerance)%Q →
    series (Some p) ts g ps g' →
    ∀ n q, ps !! n = Some q →
      (- closed_form_tolerance <= to_Q q - closed_form P0 (to_Q b) (k + S n))%Q ∧
      (to_Q q - closed_form P0 (to_Q b) (k + S n) <= closed_form_tolerance)%Q.
Proof.
  intros Hb HP0 Hts. induction Hts as [|dt ts Hdt Hts IH];
    intros k p g ps g' Hp Hclose Hs n q Hq; inversion Hs; subst; [done|].
  match goal with
  | Hstep : hourly_step _ _ _ _ _ |- _ =>
      pose proof (quiet_hourly_step p b dt g _ _ Hb Hdt Hstep) as Hq0
  end.
  pose proof Hp as [Hpr (m & e & Ep & D)].
  pose proof Hb as [Hbr (mb & eb & Eb & Db)].
  rewrite Ep in Hpr. apply normal_price_exp in Hpr.
  rewrite Eb in Hbr. apply normal_price_exp in Hbr.
  destruct (blend_close m e mb eb D Hpr Db Hbr) as (mr & er & Eraw & Dr & Hlo & Hhi).
  rewrite <- Ep, <- Eb in Eraw. rewrite Eraw in Hq0.
  destruct (clamp_normal mr er Dr) as [Hn' Hcases]. cbv zeta in Hcases.
  rewrite <- Hq0 in Hn', Hcases.
  assert ((- closed_form_tolerance
             <= to_Q final_price - closed_form P0 (to_Q b) (S k))%Q ∧
          (to_Q final_price - closed_form P0 (to_Q b) (S k)
             <= closed_form_tolerance)%Q) as Hclose'.
  { pose proof (normal_price_value b Hb) as HB.
    pose proof (closed_form_between _ _ P0 (to_Q b) (S k) HP0 HB) as Hbetween.
    rewrite closed_form_succ in *.
    rewrite <- (to_Q_finite m e), <- (to_Q_finite mb eb), <- Ep, <- Eb in Hlo, Hhi.
    rewrite <- (to_Q_finite mr er) in Hlo, Hhi.
    unfold closed_form_tolerance, blend_error in *.
    destruct Hcases as [-> | [[-> Hlt] | [-> Hlt]]]; split; lra. }
  destruct n as [|n]; cbn in Hq.
  - injection Hq as <-. by replace (k + 1)%nat with (S k) by lia.
  - replace (k + S (S n))%nat with (S k + S n)%nat by lia.
    by eapply IH.
Qed.

End Quiet.

Lemma baseline_values_normal :
  Forall normal_price (baseline_values (F:=float)).
Proof.
  assert (forallb (λ b : float,
            in_clamp_range b &&
            match b with
            | S754_finite false m _ => Zdigits2 (Z.pos m) =? 53
            | _ => false
            end) baseline_values = true) as Hall by (vm_compute; reflexivity).
  apply forallb_Forall in Hall.
  eapply Forall_impl; [exact Hall|]. intros b Hb. cbn beta in Hb.
  apply andb_prop in Hb as [H1 H2]. split; [exact H1|].
  destruct b as [| | |[] m e]; try discriminate H2.
  exists m, e. split; [reflexivity|]. by apply Z.eqb_eq.
Qed.

Lemma noise_is_zero_disabled {G : Type} (rs : RandomState float G) :
  noise_is_zero rs → noise_disabled to_Q rs.
Proof.
  intros Hz loc scale g. specialize (Hz loc scale g). revert Hz.
  float_ops. rewrite lit_0_0.
  by destruct (normal loc scale g).1 as [[]|[]| |[] mn en].
Qed.

End Binary64Quiet.

Lemma supported_by_decide (y : Z) :
  bool_decide (y ∈ supported_years) = true → y ∈ supported_years.
Proof. intros Hy. by apply bool_decide_eq_true in Hy. Qed.

(** * The claims *)

Import Binary64 Binary64Facts Binary64Run Binary64Rounding Binary64Quiet.

(** C1. Every hour of the run follows the specified steps: baseline plus
    noise for the first hour, the 80/20 blend with the previous output for
    every later hour, then the spike test (a uniform draw below 0.0005
    multiplies by a draw from [1.5, 3.5]), then the clamp; the clamped price
    is what is emitted and what the next hour blends with. *)
Theorem generate_prices_follows_hourly_recurrence
    {F : Type} `{Arith F} {G : Type} `{RandomState F G} (g : G) :
  ∃ out g',
    generate_prices g = inr (out, g') ∧
    (table out).*1 = (λ dt, value dt / ns_per_ms) <$> timestamps ∧
    series None timestamps g (table out).*2 g'.
Proof.
  destruct (generate_prices_run g) as (ps & g' & Hs & Hrun).
  eexists _, g'. split; [exact Hrun|]. cbn [table].
  destruct (table_columns ps (series_length _ _ _ _ _ Hs)) as [H1 H2].
  rewrite H1, H2. split; [reflexivity|exact Hs].
Qed.

(** C3. The grid runs hourly from 2021-01-01 00:00 to 2024-12-31 23:00,
    each timestamp one hour after the one before, with no duplicates; it has
    35,064 entries, 8760 in each of 2021 to 2023 and 8784 in 2024, and the
    table written has one row per timestamp. *)
Theorem timestamp_grid_regular :
  head timestamps = Some (timestamp_of 2021 1 1 0) ∧
  last timestamps = Some (timestamp_of 2024 12 31 23) ∧
  (let dt := timestamp_of 2021 1 1 0 in
   (year dt, month dt, day dt, hour dt) = (2021, 1, 1, 0)) ∧
  (let dt := timestamp_of 2024 12 31 23 in
   (year dt, month dt, day dt, hour dt) = (2024, 12, 31, 23)) ∧
  (∀ i a b, timestamps !! i = Some a → timestamps !! S i = Some b →
            value b = value a + ns_per_hour) ∧
  (∀ i j a b, timestamps !! i = Some a → timestamps !! j = Some b →
              (i < j)%nat → value a < value b) ∧
  NoDup timestamps ∧
  Z.of_nat (length timestamps) = 35064 ∧
  Z.of_nat (length (filter (λ dt, year dt = 2021) timestamps)) = 8760 ∧
  Z.of_nat (length (filter (λ dt, year dt = 2022) timestamps)) = 8760 ∧
  Z.of_nat (length (filter (λ dt, year dt = 2023) timestamps)) = 8760 ∧
  Z.of_nat (length (filter (λ dt, year dt = 2024) timestamps)) = 8784 ∧
  (∀ (F : Type) (A : Arith F) (G : Type) (rs : RandomState F G) (g : G),
     ∃ out g', generate_prices g = inr (out, g') ∧
               Z.of_nat (length (table out)) = 35064).
Proof.
  split; [by vm_compute|]. split; [by vm_compute|].
  split; [by vm_compute|]. split; [by vm_compute|].
  split; [exact timestamps_spacing|]. split; [exact timestamps_increasing|].
  split; [exact timestamps_NoDup|]. split; [exact timestamps_length|].
  split; [by vm_compute|]. split; [by vm_compute|].
  split; [by vm_compute|]. split; [by vm_compute|].
  intros F A G rs g.
  destruct (generate_prices_run g) as (ps & g' & Hs & Hrun).
  eexists _, g'. split; [exact Hrun|]. cbn [table].
  rewrite length_zip, length_fmap, (series_length _ _ _ _ _ Hs), Nat.min_id.
  exact timestamps_length.
Qed.

(** C5. The year lookup of [baseline_price] raises exactly for a year
    outside 2021..2024; on the grid it never does, so [generate_prices]
    always returns. *)
Theorem baseline_price_fails_iff_unsupported_year {F : Type} `{Arith F} :
  (∀ dt, (∃ e, baseline_price (F:=F) dt = inl e) ↔ year dt ∉ supported_years) ∧
  (∀ dt, year dt ∉ supported_years →
         baseline_price (F:=F) dt = inl (KeyError (year dt))) ∧
  Forall (λ dt, ∃ b : F, baseline_price dt = inr b) timestamps ∧
  (∀ (G : Type) (rs : RandomState F G) (g : G),
     ∃ out g', generate_prices g = inr (out, g')).
Proof.
  split; [|split; [|split]].
  - intros dt. split.
    + intros [e He] Hy. by rewrite (baseline_price_supported _ Hy) in He.
    + intros Hy. eexists. by apply baseline_price_unsupported.
  - intros dt. apply baseline_price_unsupported.
  - eapply Forall_impl; [exact timestamps_supported|].
    intros dt Hy. eexists. by apply baseline_price_supported.
  - intros G rs g. destruct (generate_prices_run g) as (ps & g' & _ & Hrun).
    by eexists _, _.
Qed.

(** C2. Whatever numpy draws (noise that is not NaN, spike magnitudes
    between their bounds, any spike test), the run returns and every row's
    price is at least 0.02 and at most 0.40. *)
Theorem prices_within_clamp_bounds {G : Type} (rs : RandomState float G) (g : G) :
  numpy_draws rs →
  ∃ out g',
    generate_prices g = inr (out, g') ∧
    Z.of_nat (length (table out)) = 35064 ∧
    Forall (λ row, leb $0.02 row.2 = true ∧ leb row.2 $0.40 = true) (table out).
Proof.
  intros Hdraws.
  destruct (generate_prices_run_in_range rs g Hdraws)
    as (ps & g' & Hs & Hall & Hlen & Hrun).
  eexists _, g'. split; [exact Hrun|]. cbn [table]. split.
  - rewrite length_zip, length_fmap, Hlen, Nat.min_id. exact timestamps_length.
  - apply Forall_forall. intros [t p] Hin. cbn [snd].
    apply elem_of_zip_r in Hin. rewrite Forall_forall in Hall.
    destruct (Hall p Hin) as [Hr _]. by apply in_clamp_range_leb.
Qed.

Lemma prices_within_clamp_bounds_witness :
  numpy_draws counting_random_state ∧
  ∃ out g',
    generate_prices (rs:=counting_random_state) 0%nat = inr (out, g') ∧
    Z.of_nat (length (table out)) = 35064 ∧
    Forall (λ row, leb $0.02 row.2 = true ∧ leb row.2 $0.40 = true) (table out).
Proof.
  split; [exact counting_numpy_draws|].
  apply (prices_within_clamp_bounds counting_random_state 0%nat).
  exact counting_numpy_draws.
Defined.

(** C9. The console report has exactly two lines: the first carries the
    number of rows written, the second the least and the greatest price of
    the generated series. *)
Theorem console_report {G : Type} (rs : RandomState float G) (g : G) :
  numpy_draws rs →
  ∃ out g' lo hi,
    generate_prices g = inr (out, g') ∧
    stdout out =
      [ [Str "Generated test_set_2021-2024.parquet with ";
         Int (length (table out)); Str " rows."];
        [Str "Example price range:"; Flt (Some lo);
         Str "to"; Flt (Some hi); Str "€/kWh"] ] ∧
    lo ∈ (table out).*2 ∧ hi ∈ (table out).*2 ∧
    Forall (λ p, leb lo p = true ∧ leb p hi = true) (table out).*2.
Proof.
  intros Hdraws.
  destruct (generate_prices_run_in_range rs g Hdraws)
    as (ps & g' & Hs & Hall & Hlen & Hrun).
  assert (Forall is_pos ps) as Hpos.
  { eapply Forall_impl; [exact Hall|]. intros p [Hp _].
    by apply in_clamp_range_pos. }
  assert (ps ≠ []) as Hne.
  { intros ->. pose proof timestamps_length as Hn. rewrite <- Hlen in Hn.
    discriminate Hn. }
  destruct (series_min_max_pos ps Hne Hpos)
    as (lo & hi & Hmin & Hmax & Hlo & Hhi & Hbounds).
  exists (mk_output
            (zip ((λ dt, value dt / ns_per_ms) <$> timestamps) ps)
            [ [Str "Generated test_set_2021-2024.parquet with ";
               Int (length timestamps); Str " rows."];
              [Str "Example price range:"; Flt (series_min ps);
               Str "to"; Flt (series_max ps); Str "€/kWh"] ]), g', lo, hi.
  split; [exact Hrun|]. cbn [table stdout].
  destruct (table_columns ps Hlen) as [_ H2]. rewrite H2, Hmin, Hmax.
  rewrite length_zip, length_fmap, Hlen, Nat.min_id.
  repeat split; done.
Qed.

Lemma console_report_witness :
  numpy_draws counting_random_state ∧
  ∃ out g' lo hi,
    generate_prices (rs:=counting_random_state) 0%nat = inr (out, g') ∧
    stdout out =
      [ [Str "Generated test_set_2021-2024.parquet with ";
         Int (length (table out)); Str " rows."];
        [Str "Example price range:"; Flt (Some lo);
         Str "to"; Flt (Some hi); Str "€/kWh"] ] ∧
    lo ∈ (table out).*2 ∧ hi ∈ (table out).*2 ∧
    Forall (λ p, leb lo p = true ∧ leb p hi = true) (table out).*2.
Proof.
  split; [exact counting_numpy_draws|].
  apply (console_report counting_random_state 0%nat).
  exact counting_numpy_draws.
Defined.

(** C10. For a supported year the baseline lies between its least value
    0.07 × 0.85 × 0.85 and its greatest 0.15 × 1.25 × 1.20, hence within
    [0.050575, 0.225], strictly inside the clamp interval: the clamp leaves
    a baseline unchanged. *)
Theorem baseline_price_range (dt : Timestamp) :
  year dt ∈ supported_years →
  ∃ b : float,
    baseline_price dt = inr b ∧
    leb ($0.07 * $0.85 * $0.85)%A b = true ∧
    leb b ($0.15 * $1.25 * $1.20)%A = true ∧
    leb $0.050575 b = true ∧ leb b $0.225 = true ∧
    (50575 # 1000000 <= to_Q b)%Q ∧ (to_Q b <= 225 # 1000)%Q ∧
    SFltb $0.02 b = true ∧ SFltb b $0.40 = true ∧
    clamp b = b.
Proof.
  intros Hy.
  destruct (baseline_price dt) as [e|b] eqn:Hb;
    [by rewrite (baseline_price_supported _ Hy) in Hb|].
  exists b. split; [reflexivity|].
  pose (ok := λ b : float,
    leb ($0.07 * $0.85 * $0.85)%A b && leb b ($0.15 * $1.25 * $1.20)%A &&
    leb $0.050575 b && leb b $0.225 &&
    Qle_bool (50575 # 1000000) (to_Q b) && Qle_bool (to_Q b) (225 # 1000) &&
    SFltb $0.02 b && SFltb b $0.40 &&
    negb (SFltb b $0.02) && negb (SFltb $0.40 b)).
  assert (forallb ok baseline_values = true) as Hall by (vm_compute; reflexivity).
  apply forallb_Forall in Hall. rewrite Forall_forall in Hall.
  specialize (Hall b (baseline_in_values dt b Hb)). unfold ok in Hall.
  rewrite !andb_true_iff, !negb_true_iff in Hall.
  destruct Hall as (((((((((H1 & H2) & H3) & H4) & H5) & H6) & H7) & H8) & H9) & H10).
  apply Qle_bool_iff in H5, H6.
  repeat (split; [assumption|]).
  unfold clamp, py_min, py_max. float_ops. rewrite H9, H10. reflexivity.
Qed.

Lemma baseline_price_range_witness :
  year (timestamp_of 2023 4 9 7) ∈ supported_years ∧
  ∃ b : float,
    baseline_price (timestamp_of 2023 4 9 7) = inr b ∧
    leb ($0.07 * $0.85 * $0.85)%A b = true ∧
    leb b ($0.15 * $1.25 * $1.20)%A = true ∧
    leb $0.050575 b = true ∧ leb b $0.225 = true ∧
    (50575 # 1000000 <= to_Q b)%Q ∧ (to_Q b <= 225 # 1000)%Q ∧
    SFltb $0.02 b = true ∧ SFltb b $0.40 = true ∧
    clamp b = b.
Proof.
  assert (year (timestamp_of 2023 4 9 7) ∈ supported_years) as Hy.
  { apply supported_by_decide. vm_compute. reflexivity. }
  split; [exact Hy|].
  exact (baseline_price_range (timestamp_of 2023 4 9 7) Hy).
Defined.

(** C7. In any supported year and at any hour of the day, the December
    baseline is strictly greater than the June baseline. *)
Theorem december_above_june (dec jun : Timestamp) :
  year dec ∈ supported_years → year jun = year dec → hour jun = hour dec →
  month dec = 12 → month jun = 6 →
  ∃ b_dec b_jun : float,
    baseline_price dec = inr b_dec ∧ baseline_price jun = inr b_jun ∧
    SFltb b_jun b_dec = true.
Proof.
  intros Hy Hyear Hhour Hdec Hjun.
  assert (year jun ∈ supported_years) as Hy' by by rewrite Hyear.
  rewrite (baseline_price_supported dec Hy), (baseline_price_supported jun Hy').
  rewrite Hyear, Hhour, Hdec, Hjun.
  eexists _, _. split; [reflexivity|]. split; [reflexivity|].
  apply supported_years_spec in Hy.
  unfold spec_time_of_day_multiplier.
  destruct Hy as [-> | [-> | [-> | ->]]];
    repeat match goal with
      | |- context [if ?c then _ else _] => destruct c
      end; vm_compute; reflexivity.
Qed.

Lemma december_above_june_witness :
  ∃ b_dec b_jun : float,
    baseline_price (timestamp_of 2022 12 24 19) = inr b_dec ∧
    baseline_price (timestamp_of 2022 6 24 19) = inr b_jun ∧
    SFltb b_jun b_dec = true.
Proof.
  apply (december_above_june (timestamp_of 2022 12 24 19) (timestamp_of 2022 6 24 19)).
  - apply supported_by_decide. vm_compute. reflexivity.
  - vm_compute. reflexivity.
  - vm_compute. reflexivity.
  - vm_compute. reflexivity.
  - vm_compute. reflexivity.
Defined.

(** C4, as the claim states it, fails in binary64: the two scenario values
    are not the doubles nearest 0.225 and 0.0614125. *)
Lemma baseline_scenarios_not_decimal :
  baseline_price (F:=float) (timestamp_of 2022 1 15 19) ≠ inr $0.225 ∧
  baseline_price (F:=float) (timestamp_of 2024 7 10 3) ≠ inr $0.0614125.
Proof. split; vm_compute; discriminate. Qed.

(** C4, amended. For a supported year the baseline is the product
    year factor × season multiplier × time-of-day multiplier of the tables.
    In binary64 the product for 2022-01-15 19:00 is the double just below
    the one nearest 0.225 and that for 2024-07-10 03:00 the double just
    above the one nearest 0.0614125; in exact arithmetic they are 0.225 and
    0.0614125. *)
Theorem baseline_price_formula :
  (∀ (F : Type) (A : Arith F) (dt : Timestamp),
     year dt ∈ supported_years →
     baseline_price dt =
       inr (spec_year_factor (year dt) * spec_season_multiplier (month dt)
            * spec_time_of_day_multiplier (hour dt))%A) ∧
  baseline_price (F:=float) (timestamp_of 2022 1 15 19)
    = inr ($0.15 * $1.25 * $1.20)%A ∧
  ($0.15 * $1.25 * $1.20)%A = SFpred prec emax $0.225 ∧
  ($0.15 * $1.25 * $1.20)%A = S754_finite false 8106479329266892 (-55) ∧
  baseline_price (F:=float) (timestamp_of 2024 7 10 3)
    = inr ($0.085 * $0.85 * $0.85)%A ∧
  ($0.085 * $0.85 * $0.85)%A = SFsucc prec emax $0.0614125 ∧
  ($0.085 * $0.85 * $0.85)%A = S754_finite false 8850473987708500 (-57) ∧
  (∃ q : Q, baseline_price (F:=Q) (timestamp_of 2022 1 15 19) = inr q ∧
            (q == 225 # 1000)%Q) ∧
  (∃ q : Q, baseline_price (F:=Q) (timestamp_of 2024 7 10 3) = inr q ∧
            (q == 614125 # 10000000)%Q).
Proof.
  split; [intros F A dt; apply baseline_price_supported|].
  repeat split; try (vm_compute; reflexivity).
  - eexists. split; [vm_compute; reflexivity|]. vm_compute. reflexivity.
  - eexists. split; [vm_compute; reflexivity|]. vm_compute. reflexivity.
Qed.

(** C8. The baseline depends on the timestamp only, through its year, month
    and hour; and two runs whose generators make the same draws write the
    same table and print the same report. *)
Theorem two_run_determinism {F : Type} {AF : Arith F} :
  (∀ dt1 dt2, dt1 = dt2 → baseline_price (F:=F) dt1 = baseline_price dt2) ∧
  (∀ dt1 dt2, year dt1 = year dt2 → month dt1 = month dt2 →
              hour dt1 = hour dt2 →
              baseline_price (F:=F) dt1 = baseline_price dt2) ∧
  (∀ (G1 G2 : Type) (rs1 : RandomState F G1) (rs2 : RandomState F G2)
     (R : G1 → G2 → Prop) (g1 : G1) (g2 : G2),
     same_draws rs1 rs2 R → R g1 g2 →
     ∃ out g1' g2',
       generate_prices (rs:=rs1) g1 = inr (out, g1') ∧
       generate_prices (rs:=rs2) g2 = inr (out, g2') ∧
       R g1' g2').
Proof.
  split; [by intros dt1 dt2 ->|]. split.
  - intros dt1 dt2 Hy Hm Hh. unfold baseline_price. by rewrite Hy, Hm, Hh.
  - intros G1 G2 rs1 rs2 R g1 g2 Hsame HR.
    destruct (generate_prices_run (rs:=rs1) g1) as (ps1 & g1' & Hs1 & Hrun1).
    destruct (generate_prices_run (rs:=rs2) g2) as (ps2 & g2' & Hs2 & Hrun2).
    destruct (series_same rs1 rs2 R Hsame _ _ _ _ _ _ _ _ HR Hs1 Hs2) as [<- HR'].
    eexists _, g1', g2'. split; [exact Hrun1|]. split; [exact Hrun2|exact HR'].
Qed.

Lemma two_run_determinism_witness :
  ∃ out g1' g2',
    generate_prices (rs:=counting_random_state) 0%nat = inr (out, g1') ∧
    generate_prices (rs:=parity_random_state) true = inr (out, g2') ∧
    g2' = Nat.even g1'.
Proof.
  apply (proj2 (proj2 (two_run_determinism (F:=Binary64.float)))
           nat bool counting_random_state parity_random_state
           (λ n b, b = Nat.even n) 0%nat true).
  - exact counting_parity_same_draws.
  - reflexivity.
Defined.

(** C6, amended. In binary64, from a double [price_0] within the clamp
    bounds and over hours that all have the same baseline [b], with every
    noise draw zero and no spike taken, the loop returns one price per hour
    and the n-th of them is within 2 × 10⁻¹⁵ of
    0.8^n × price_0 + b × (1 − 0.8^n). *)
Theorem closed_form_up_to_rounding
    (G : Type) (rs : RandomState float G) (g : G)
    (ts : list Timestamp) (price_0 b : float) :
  noise_is_zero rs → spikes_disabled rs →
  Forall (λ dt, baseline_price dt = inr b) ts →
  valid_binary prec emax price_0 = true → in_clamp_range price_0 = true →
  ∃ ps g',
    for_each ts ([], Some price_0) g
      = inr ((ps, prev_after (Some price_0) ps), g') ∧
    length ps = length ts ∧
    ∀ n p, ps !! n = Some p →
      (Qabs (to_Q p - closed_form (to_Q price_0) (to_Q b) (S n))
         <= 2 # 1000000000000000)%Q.
Proof.
  intros Hnoise Hspike Hts Hv Hr.
  assert (Forall (λ dt, year dt ∈ supported_years) ts) as Hy.
  { eapply Forall_impl; [exact Hts|]. intros dt Hdt.
    exact (baseline_price_inr dt b Hdt). }
  destruct (series_total ts (Some price_0) g Hy) as (ps & g' & Hs).
  exists ps, g'. split; [exact (for_each_series _ _ _ _ _ Hs [])|].
  split; [by eapply series_length|].
  destruct ts as [|dt ts].
  - inversion Hs; subst. intros n p Hn. by rewrite lookup_nil in Hn.
  - assert (normal_price b) as Hb.
    { pose proof baseline_values_normal as Hall.
      rewrite Forall_forall in Hall. apply Hall.
      apply Forall_cons in Hts as [Hdt _]. by apply (baseline_in_values dt). }
    pose proof (valid_price_normal price_0 Hv Hr) as Hp0.
    intros n p Hn. apply Qabs_Qle_condition.
    apply (quiet_series_close Hnoise Hspike (to_Q price_0) b (dt :: ts) Hb
             (normal_price_value _ Hp0) Hts 0%nat price_0 g ps g' Hp0);
      [|exact Hs|exact Hn].
    rewrite closed_form_0. unfold closed_form_tolerance. split; lra.
Qed.

Lemma closed_form_up_to_rounding_witness :
  ∃ ps g',
    for_each (rs:=quiet_random_state)
      [timestamp_of 2021 1 1 6; timestamp_of 2021 1 1 7; timestamp_of 2021 1 1 8]
      ([], Some ($0.1 : float)) 0%nat
      = inr ((ps, prev_after (Some ($0.1 : float)) ps), g') ∧
    length ps = 3%nat ∧
    ∀ n p, ps !! n = Some p →
      (Qabs (to_Q p - closed_form (to_Q $0.1) (to_Q ($0.07 * $1.25 * $1.05)%A) (S n))
         <= 2 # 1000000000000000)%Q.
Proof.
  apply (closed_form_up_to_rounding nat quiet_random_state 0%nat
           [timestamp_of 2021 1 1 6; timestamp_of 2021 1 1 7; timestamp_of 2021 1 1 8]
           ($0.1 : float) ($0.07 * $1.25 * $1.05)%A).
  - intros loc scale g. vm_compute. reflexivity.
  - intros g. vm_compute. reflexivity.
  - repeat constructor; vm_compute; reflexivity.
  - vm_compute. reflexivity.
  - vm_compute. reflexivity.
Defined.

(** C6, as the claim states it, fails in binary64.  With the baseline
    b = 0.07 × 1.25 × 1.20 of 2021-01-01 18:00 as the initial price, the
    closed form says the price stays b; the loop's next price is another
    double. *)
Lemma closed_form_fails_binary64 :
  (let b : Binary64.float := ($0.07 * $1.25 * $1.20)%A in
   baseline_price (timestamp_of 2021 1 1 18) = inr b ∧
   within_clamp b ∧
   ∃ p1 g',
     for_each (rs:=quiet_random_state) [timestamp_of 2021 1 1 18]
       ([], Some b) 0%nat = inr (([p1], Some p1), g') ∧
     p1 ≠ b ∧
     ¬ (Binary64.to_Q p1
          == closed_form (Binary64.to_Q b) (Binary64.to_Q b) 1)%Q) ∧
  ¬ closed_form_holds (F:=Binary64.float) Binary64.to_Q.
Proof.
  split.
  - cbv zeta. split; [vm_compute; reflexivity|].
    split; [split; vm_compute; reflexivity|].
    eexists _, _. split; [vm_compute; reflexivity|].
    split; [vm_compute; discriminate|].
    vm_compute. discriminate.
  - intros Hclaim.
    destruct (Hclaim nat quiet_random_state 0%nat [timestamp_of 2021 1 1 18]
                ($0.07 * $1.25 * $1.20)%A ($0.07 * $1.25 * $1.20)%A)
      as (ps & g' & Hrun & _ & Hcf).
    + intros loc scale g. vm_compute. reflexivity.
    + intros g. vm_compute. reflexivity.
    + repeat constructor; vm_compute; reflexivity.
    + split; vm_compute; reflexivity.
    + vm_compute in Hrun. injection Hrun as Hps _ _.
      specialize (Hcf 0%nat _ ltac:(rewrite <- Hps; reflexivity)).
      vm_compute in Hcf. discriminate Hcf.
Qed.

(** * Further properties of the code *)

(** ** The loop: errors and composition *)

Lemma for_each_app {F : Type} {AF : Arith F} {G : Type} {rs : RandomState F G}
    (ts1 ts2 : list Timestamp) (st : list F * option F) (g : G) :
  for_each (ts1 ++ ts2) st g =
    match for_each ts1 st g with
    | inl e => inl e
    | inr (st1, g1) => for_each ts2 st1 g1
    end.
Proof.
  revert st g. induction ts1 as [|dt ts1 IH]; intros st g; [reflexivity|].
  rewrite <- app_comm_cons, !for_each_cons.
  destruct (loop_body dt st g) as [e|[st' g']]; [reflexivity|]. apply IH.
Qed.

(** X1. A timestamp whose year is outside the table aborts the loop: the
    hours before it are computed, then the lookup raises [KeyError] for that
    year, whatever follows and whatever the generator draws. *)
Theorem loop_aborts_at_first_unsupported_year
    {F : Type} {AF : Arith F} {G : Type} {rs : RandomState F G}
    (ts1 : list Timestamp) (dt : Timestamp) (ts2 : list Timestamp)
    (st : list F * option F) (g : G) :
  Forall (λ dt, year dt ∈ supported_years) ts1 →
  year dt ∉ supported_years →
  for_each (ts1 ++ dt :: ts2) st g = inl (KeyError (year dt)).
Proof.
  intros H1 Hdt. destruct st as [prices prev].
  destruct (series_total ts1 prev g H1) as (ps & g1 & Hs).
  rewrite for_each_app, (for_each_series _ _ _ _ _ Hs prices), for_each_cons.
  by rewrite (loop_body_raises _ _ _ Hdt).
Qed.

Lemma loop_aborts_at_first_unsupported_year_witness :
  for_each (F:=float) (rs:=counting_random_state)
    ([timestamp_of 2024 12 31 22; timestamp_of 2024 12 31 23]
       ++ timestamp_of 2025 1 1 0 :: [timestamp_of 2025 1 1 1])
    ([], None) 0%nat
  = inl (KeyError (year (timestamp_of 2025 1 1 0))).
Proof.
  apply (loop_aborts_at_first_unsupported_year
           [timestamp_of 2024 12 31 22; timestamp_of 2024 12 31 23]
           (timestamp_of 2025 1 1 0) [timestamp_of 2025 1 1 1]).
  - repeat constructor; apply supported_by_decide; vm_compute; reflexivity.
  - intros Hy. apply supported_years_spec in Hy. vm_compute in Hy.
    destruct Hy as [Hy|[Hy|[Hy|Hy]]]; discriminate Hy.
Defined.

(** X2. The loop can be cut anywhere: running it over the first hours and
    then, from the state and generator it leaves, over the remaining hours
    gives the run over all of them; and the prices already emitted are kept
    as a prefix. *)
Theorem loop_resumes
    {F : Type} {AF : Arith F} {G : Type} {rs : RandomState F G}
    (ts1 ts2 : list Timestamp) (prices : list F) (prev : option F) (g : G) :
  for_each (ts1 ++ ts2) (prices, prev) g =
    (st1 ← for_each ts1 (prices, prev); for_each ts2 st1) g ∧
  ∀ st g', for_each (ts1 ++ ts2) (prices, prev) g = inr (st, g') →
    ∃ ps1 ps2 g1,
      for_each ts1 (prices, prev) g
        = inr ((prices ++ ps1, prev_after prev ps1), g1) ∧
      length ps1 = length ts1 ∧ length ps2 = length ts2 ∧
      st = (prices ++ ps1 ++ ps2, prev_after prev (ps1 ++ ps2)).
Proof.
  split.
  - rewrite for_each_app. unfold mbind, M_bind.
    by destruct (for_each ts1 (prices, prev) g) as [e|[st1 g1]].
  - intros st g' Hrun. rewrite for_each_app in Hrun.
    destruct (for_each ts1 (prices, prev) g) as [e|[st1 g1]] eqn:H1; [done|].
    destruct (for_each_inr _ _ _ _ _ _ H1) as (ps1 & Hs1 & ->).
    destruct (for_each_inr _ _ _ _ _ _ Hrun) as (ps2 & Hs2 & ->).
    exists ps1, ps2, g1. split; [done|].
    split; [by eapply series_length|]. split; [by eapply series_length|].
    rewrite <- app_assoc. f_equal. unfold prev_after.
    destruct ps2 as [|p ps2]; [by rewrite app_nil_r|].
    rewrite last_app. by destruct (last (p :: ps2)).
Qed.

(** ** The clamp in binary64 *)

Lemma SFleb_ltb_false x y : SFleb x y = true → SFltb y x = false.
Proof.
  unfold SFleb, SFltb. rewrite (SFcompare_antisym x y).
  by destruct (SFcompare x y) as [[]|].
Qed.

Lemma clamp_id_in_range (x : float) : in_clamp_range x = true → clamp x = x.
Proof.
  intros [H1 H2]%in_clamp_range_leb.
  unfold clamp, py_min, py_max. float_ops.
  by rewrite (SFleb_ltb_false _ _ H1), (SFleb_ltb_false _ _ H2).
Qed.

(** X3. [min(max(price, 0.02), 0.40)] on floats: NaN passes through
    unchanged, the infinities go to the bounds, every other value lands in
    [0.02, 0.40], a value already there is returned as it is, and clamping
    twice is clamping once. *)
Theorem clamp_edge_cases :
  clamp S754_nan = S754_nan ∧
  clamp (S754_infinity true) = $0.02 ∧
  clamp (S754_infinity false) = $0.40 ∧
  (∀ x : float, is_nan x = false → in_clamp_range (clamp x) = true) ∧
  (∀ x : float, in_clamp_range x = true → clamp x = x) ∧
  (∀ x : float, clamp (clamp x) = clamp x).
Proof.
  split; [by vm_compute|]. split; [by vm_compute|]. split; [by vm_compute|].
  split; [exact clamp_in_range|]. split; [exact clamp_id_in_range|].
  intros x. destruct (is_nan x) eqn:Hx.
  - destruct x; try discriminate Hx. by vm_compute.
  - by apply clamp_id_in_range, clamp_in_range.
Qed.

(** ** NaN is never filtered *)

Lemma nan_step {G : Type} {rs : RandomState float G}
    (prev : option float) dt (g : G) p g' :
  hourly_step prev dt g p g' →
  prev = Some S754_nan ∨ is_nan (normal $0.0 $0.002 g).1 = true →
  p = S754_nan.
Proof.
  intros [base noise g1 spiked g2 Hb Hn Hs] Hnan.
  assert (smooth prev base noise = S754_nan) as Hraw.
  { destruct Hnan as [-> | Hnan].
    - unfold smooth. float_ops. rewrite lit_0_8. reflexivity.
    - rewrite Hn in Hnan. cbn [fst] in Hnan.
      destruct noise; try discriminate Hnan.
      unfold smooth. float_ops. destruct prev as [q|].
      + replace (SFadd prec emax base S754_nan) with S754_nan
          by by destruct base.
        replace (SFmul prec emax $0.2 S754_nan) with S754_nan
          by (rewrite lit_0_2; reflexivity).
        by destruct (SFmul prec emax $0.8 q).
      + by destruct base. }
  rewrite Hraw in Hs.
  assert (spiked = S754_nan) as ->.
  { destruct Hs as [u h1 m h2 Hu Hlt Hm|u h1 Hu Hlt]; [|done].
    float_ops. reflexivity. }
  by vm_compute.
Qed.

(** X4. Nothing in the loop filters NaN: once the previous price is NaN, or
    when a noise draw is NaN, the hour's price is NaN, and so is every
    price after it. *)
Theorem nan_poisons_the_series {G : Type} {rs : RandomState float G}
    (prev : option float) (ts : list Timestamp) (g : G)
    (ps : list float) (g' : G) :
  series prev ts g ps g' →
  prev = Some S754_nan ∨ is_nan (normal $0.0 $0.002 g).1 = true →
  Forall (λ p, p = S754_nan) ps.
Proof.
  intros Hs. induction Hs as [|prev dt ts g p g1 ps g' Hstep Hs IH]; intros Hnan.
  - constructor.
  - pose proof (nan_step _ _ _ _ _ Hstep Hnan) as ->.
    constructor; [reflexivity|]. apply IH. by left.
Qed.

Lemma nan_poisons_the_series_witness :
  ∃ ps g',
    series (rs:=counting_random_state) (Some S754_nan)
      [timestamp_of 2021 1 1 0; timestamp_of 2021 1 1 1] 0%nat ps g' ∧
    Forall (λ p, p = S754_nan) ps.
Proof.
  destruct (series_total (rs:=counting_random_state)
              [timestamp_of 2021 1 1 0; timestamp_of 2021 1 1 1]
              (Some S754_nan) 0%nat) as (ps & g' & Hs).
  { repeat constructor; apply supported_by_decide; vm_compute; reflexivity. }
  exists ps, g'. split; [exact Hs|].
  apply (nan_poisons_the_series _ _ _ _ _ Hs). left. reflexivity.
Defined.

(** ** Orderings the baseline tables give *)

Lemma elem_by_decide (x : Z) (l : list Z) :
  bool_decide (x ∈ l) = true → x ∈ l.
Proof. intros Hx. by apply bool_decide_eq_true in Hx. Qed.

Lemma not_elem_by_decide (x : Z) (l : list Z) :
  bool_decide (x ∈ l) = false → x ∉ l.
Proof. intros Hx. by apply bool_decide_eq_false in Hx. Qed.

Ltac baseline_cases :=
  repeat match goal with
    | |- context [if ?c then _ else _] => destruct c
    end; vm_compute; try reflexivity.

(** X5. Crisis years are dearer: at the same month and hour of the day, the
    baseline of 2021 is below that of 2024, which is below that of 2023,
    which is below that of 2022. *)
Theorem crisis_years_are_higher (d21 d22 d23 d24 : Timestamp) :
  year d21 = 2021 → year d22 = 2022 → year d23 = 2023 → year d24 = 2024 →
  month d22 = month d21 → month d23 = month d21 → month d24 = month d21 →
  hour d22 = hour d21 → hour d23 = hour d21 → hour d24 = hour d21 →
  ∃ b21 b22 b23 b24 : float,
    baseline_price d21 = inr b21 ∧ baseline_price d22 = inr b22 ∧
    baseline_price d23 = inr b23 ∧ baseline_price d24 = inr b24 ∧
    SFltb b21 b24 = true ∧ SFltb b24 b23 = true ∧ SFltb b23 b22 = true.
Proof.
  intros Y1 Y2 Y3 Y4 M2 M3 M4 H2 H3 H4.
  rewrite !baseline_price_supported
    by (rewrite ?Y1, ?Y2, ?Y3, ?Y4; apply supported_by_decide; reflexivity).
  rewrite Y1, Y2, Y3, Y4, M2, M3, M4, H2, H3, H4.
  eexists _, _, _, _. repeat (split; [reflexivity|]).
  unfold spec_season_multiplier, spec_time_of_day_multiplier.
  repeat split; baseline_cases.
Qed.

Lemma crisis_years_are_higher_witness :
  ∃ b21 b22 b23 b24 : float,
    baseline_price (timestamp_of 2021 3 5 10) = inr b21 ∧
    baseline_price (timestamp_of 2022 3 6 10) = inr b22 ∧
    baseline_price (timestamp_of 2023 3 7 10) = inr b23 ∧
    baseline_price (timestamp_of 2024 3 8 10) = inr b24 ∧
    SFltb b21 b24 = true ∧ SFltb b24 b23 = true ∧ SFltb b23 b22 = true.
Proof.
  apply (crisis_years_are_higher
           (timestamp_of 2021 3 5 10) (timestamp_of 2022 3 6 10)
           (timestamp_of 2023 3 7 10) (timestamp_of 2024 3 8 10));
    vm_compute; reflexivity.
Defined.

(** X6. Within a supported year and at the same hour of the day, any
    summer month (6, 7, 8) has a lower baseline than any shoulder month,
    which has a lower baseline than any winter month (12, 1, 2). *)
Theorem seasons_are_ordered (summer shoulder winter : Timestamp) :
  year winter ∈ supported_years →
  year summer = year winter → year shoulder = year winter →
  hour summer = hour winter → hour shoulder = hour winter →
  month summer ∈ [6; 7; 8] → month winter ∈ [12; 1; 2] →
  month shoulder ∉ [6; 7; 8] → month shoulder ∉ [12; 1; 2] →
  ∃ b_summer b_shoulder b_winter : float,
    baseline_price summer = inr b_summer ∧
    baseline_price shoulder = inr b_shoulder ∧
    baseline_price winter = inr b_winter ∧
    SFltb b_summer b_shoulder = true ∧ SFltb b_shoulder b_winter = true.
Proof.
  intros Hy Y1 Y2 H1 H2 Ms Mw Mh1 Mh2.
  rewrite !baseline_price_supported by by rewrite ?Y1, ?Y2.
  rewrite Y1, Y2, H1, H2.
  eexists _, _, _. repeat (split; [reflexivity|]).
  assert (spec_season_multiplier (F:=float) (month summer) = $0.85) as ->.
  { rewrite <- season_mult_spec. unfold season_mult.
    rewrite bool_decide_eq_false_2, bool_decide_eq_true_2; [done|done|].
    revert Ms. rewrite !elem_of_cons, !elem_of_nil. lia. }
  assert (spec_season_multiplier (F:=float) (month winter) = $1.25) as ->.
  { rewrite <- season_mult_spec. unfold season_mult.
    by rewrite bool_decide_eq_true_2. }
  assert (spec_season_multiplier (F:=float) (month shoulder) = $1.05) as ->.
  { rewrite <- season_mult_spec. unfold season_mult.
    by rewrite !bool_decide_eq_false_2. }
  apply supported_years_spec in Hy.
  unfold spec_time_of_day_multiplier.
  destruct Hy as [-> | [-> | [-> | ->]]]; split; baseline_cases.
Qed.

Lemma seasons_are_ordered_witness :
  ∃ b_summer b_shoulder b_winter : float,
    baseline_price (timestamp_of 2023 7 1 13) = inr b_summer ∧
    baseline_price (timestamp_of 2023 10 2 13) = inr b_shoulder ∧
    baseline_price (timestamp_of 2023 2 3 13) = inr b_winter ∧
    SFltb b_summer b_shoulder = true ∧ SFltb b_shoulder b_winter = true.
Proof.
  apply (seasons_are_ordered (timestamp_of 2023 7 1 13)
           (timestamp_of 2023 10 2 13) (timestamp_of 2023 2 3 13)).
  - apply supported_by_decide. vm_compute. reflexivity.
  - vm_compute. reflexivity.
  - vm_compute. reflexivity.
  - vm_compute. reflexivity.
  - vm_compute. reflexivity.
  - apply elem_by_decide. vm_compute. reflexivity.
  - apply elem_by_decide. vm_compute. reflexivity.
  - apply not_elem_by_decide. vm_compute. reflexivity.
  - apply not_elem_by_decide. vm_compute. reflexivity.
Defined.

(** X7. Within a supported year and month, the hour of the day orders the
    baseline: night [0,6) is lowest, then late evening [22,24), morning
    [6,12), afternoon [12,18), and the evening peak [18,22) is highest. *)
Theorem time_of_day_is_ordered (night late morning afternoon evening : Timestamp) :
  year evening ∈ supported_years →
  year night = year evening → year late = year evening →
  year morning = year evening → year afternoon = year evening →
  month night = month evening → month late = month evening →
  month morning = month evening → month afternoon = month evening →
  hour night < 6 → 22 <= hour late → 6 <= hour morning < 12 →
  12 <= hour afternoon < 18 → 18 <= hour evening < 22 →
  ∃ b_night b_late b_morning b_afternoon b_evening : float,
    baseline_price night = inr b_night ∧ baseline_price late = inr b_late ∧
    baseline_price morning = inr b_morning ∧
    baseline_price afternoon = inr b_afternoon ∧
    baseline_price evening = inr b_evening ∧
    SFltb b_night b_late = true ∧ SFltb b_late b_morning = true ∧
    SFltb b_morning b_afternoon = true ∧ SFltb b_afternoon b_evening = true.
Proof.
  intros Hy Y1 Y2 Y3 Y4 M1 M2 M3 M4 Hn Hl Hm Ha He.
  rewrite !baseline_price_supported by by rewrite ?Y1, ?Y2, ?Y3, ?Y4.
  rewrite Y1, Y2, Y3, Y4, M1, M2, M3, M4.
  eexists _, _, _, _, _. repeat (split; [reflexivity|]).
  assert (∀ k, spec_time_of_day_multiplier (F:=float) k =
               if k <? 6 then $0.85 else if k <? 12 then $1.05
               else if k <? 18 then $1.15 else if k <? 22 then $1.20 else $1.00)
    as Htod by reflexivity.
  pose proof (hour_range night). pose proof (hour_range late).
  rewrite (Htod (hour night)), (Htod (hour late)), (Htod (hour morning)),
    (Htod (hour afternoon)), (Htod (hour evening)).
  repeat match goal with
    | |- context [?a <? ?b] =>
        first [ rewrite (proj2 (Z.ltb_lt a b)) by lia
              | rewrite (proj2 (Z.ltb_ge a b)) by lia ]
    end.
  apply supported_years_spec in Hy.
  unfold spec_season_multiplier.
  destruct Hy as [-> | [-> | [-> | ->]]]; repeat split; baseline_cases.
Qed.

Lemma time_of_day_is_ordered_witness :
  ∃ b_night b_late b_morning b_afternoon b_evening : float,
    baseline_price (timestamp_of 2024 5 20 3) = inr b_night ∧
    baseline_price (timestamp_of 2024 5 21 23) = inr b_late ∧
    baseline_price (timestamp_of 2024 5 22 9) = inr b_morning ∧
    baseline_price (timestamp_of 2024 5 23 15) = inr b_afternoon ∧
    baseline_price (timestamp_of 2024 5 24 20) = inr b_evening ∧
    SFltb b_night b_late = true ∧ SFltb b_late b_morning = true ∧
    SFltb b_morning b_afternoon = true ∧ SFltb b_afternoon b_evening = true.
Proof.
  apply (time_of_day_is_ordered (timestamp_of 2024 5 20 3)
           (timestamp_of 2024 5 21 23) (timestamp_of 2024 5 22 9)
           (timestamp_of 2024 5 23 15) (timestamp_of 2024 5 24 20));
    first [ apply supported_by_decide; vm_compute; reflexivity
          | vm_compute; reflexivity
          | vm_compute; discriminate
          | vm_compute; split; [discriminate|reflexivity] ].
Defined.

(** ** The table written *)

Lemma grid_start_value : value grid_start = 1609459200000 * ns_per_ms.
Proof. reflexivity. Qed.

(** X8. Row [i] of the table carries the millisecond timestamp
    1609459200000 + 3600000 × i (2021-01-01 00:00 plus [i] hours): the
    conversion from nanoseconds loses nothing, and the rows are in the
    order of the grid. *)
Theorem table_timestamps_are_exact_milliseconds
    {F : Type} {AF : Arith F} {G : Type} {rs : RandomState F G} (g : G) :
  ∃ out g',
    generate_prices g = inr (out, g') ∧
    ∀ i row, table out !! i = Some row →
      row.1 = 1609459200000 + Z.of_nat i * 3600000 ∧
      ∃ dt, timestamps !! i = Some dt ∧ row.1 * ns_per_ms = value dt.
Proof.
  destruct (generate_prices_run g) as (ps & g' & Hs & Hrun).
  eexists _, g'. split; [exact Hrun|]. cbn [table].
  intros i [t p] Hrow. cbn [fst].
  assert ((zip ((λ dt, value dt / ns_per_ms) <$> timestamps) ps).*1 !! i = Some t)
    as Ht by by rewrite list_lookup_fmap, Hrow.
  destruct (table_columns ps (series_length _ _ _ _ _ Hs)) as [H1 _].
  rewrite H1, list_lookup_fmap in Ht.
  destruct (timestamps !! i) as [dt|] eqn:Hdt; [|discriminate Ht].
  injection Ht as <-.
  pose proof Hdt as [_ ->]%timestamps_lookup. cbn [value].
  rewrite grid_start_value.
  replace (1609459200000 * ns_per_ms + Z.of_nat i * ns_per_hour)
    with ((1609459200000 + Z.of_nat i * 3600000) * ns_per_ms)
    by (unfold ns_per_hour, ns_per_ms; lia).
  rewrite Z.div_mul by (unfold ns_per_ms; lia).
  split; [reflexivity|]. eexists. split; reflexivity.
Qed.

(** ** Binary64: how far one hour can move the price *)

Module Binary64Noise.

Import Binary64 Binary64Facts Binary64Rounding Binary64Quiet.

(** *** Rounding a positive value of known magnitude *)

Lemma pow2_lt_inv a b : (pow2 a < pow2 b)%Q → a < b.
Proof.
  intros H. destruct (Z.lt_ge_cases a b) as [|Hge]; [done|].
  pose proof (pow2_le b a Hge). lra.
Qed.

Lemma F2Q_opp m e : (F2Q (- m) e == - F2Q m e)%Q.
Proof. unfold F2Q. rewrite inject_Z_opp. ring. Qed.

Lemma F2Q_0 e : (F2Q 0 e == 0)%Q.
Proof. unfold F2Q. change (inject_Z 0) with 0%Q. ring. Qed.

Lemma to_Q_finite_neg m e :
  (to_Q (S754_finite true m e) == - F2Q (Z.pos m) e)%Q.
Proof.
  pose proof (to_Q_finite m e) as H. cbn [to_Q] in *. by rewrite H.
Qed.

Lemma value_bounds m e :
  (pow2 (e + (Zdigits2 (Z.pos m) - 1)) <= F2Q (Z.pos m) e)%Q ∧
  (F2Q (Z.pos m) e < pow2 (e + Zdigits2 (Z.pos m)))%Q.
Proof.
  destruct (Zdigits2_bounds (Z.pos m)) as [H1 H2]; [lia|].
  pose proof (Zdigits2_pos m). pose proof (Z.log2_nonneg (Z.pos m)).
  split.
  - rewrite <- F2Q_pow2 by lia. by apply F2Q_le.
  - rewrite <- F2Q_pow2 by lia. by apply F2Q_lt.
Qed.

Lemma digits_of_value m e kl kh :
  (pow2 kl <= F2Q (Z.pos m) e)%Q → (F2Q (Z.pos m) e < pow2 kh)%Q →
  kl < Zdigits2 (Z.pos m) + e <= kh.
Proof.
  intros Hl Hh. destruct (value_bounds m e) as [H1 H2]. split.
  - assert (kl < e + Zdigits2 (Z.pos m)); [|lia]. apply pow2_lt_inv. lra.
  - assert (e + (Zdigits2 (Z.pos m) - 1) < kh); [|lia]. apply pow2_lt_inv. lra.
Qed.

Lemma normal_exp_lt m e k :
  Zdigits2 (Z.pos m) = 53 → (F2Q (Z.pos m) e < pow2 k)%Q → e <= k - 53.
Proof.
  intros D Hlt. destruct (normal_bounds m e D) as [H1 _].
  assert (e + 52 < k); [|lia]. apply pow2_lt_inv. lra.
Qed.

Lemma shl_align_spec mx ex e' :
  (shl_align mx ex e').2 = Z.min ex e' ∧
  Z.pos (shl_align mx ex e').1 = Z.pos mx * 2 ^ (ex - Z.min ex e').
Proof.
  unfold shl_align. destruct (e' - ex) as [|d|d] eqn:Ed; cbn [fst snd].
  - replace (Z.min ex e') with ex by lia. rewrite Z.sub_diag. lia.
  - replace (Z.min ex e') with ex by lia. rewrite Z.sub_diag. lia.
  - replace (Z.min ex e') with e' by lia. rewrite iter_xO.
    split; [reflexivity|]. f_equal. f_equal. lia.
Qed.

(** Rounding a positive [mx × 2^ex] whose value lies in [2^kl, 2^kh), away
    from underflow and overflow: the result is normal and off by at most
    [2^(kh − 53)]. *)
Lemma binary_round_normal mx ex kl kh :
  (pow2 kl <= F2Q (Z.pos mx) ex)%Q → (F2Q (Z.pos mx) ex < pow2 kh)%Q →
  -1022 <= kl → kh <= 1023 →
  ∃ m e,
    binary_round prec emax false mx ex = S754_finite false m e ∧
    Zdigits2 (Z.pos m) = 53 ∧ kl - 52 <= e <= kh - 52 ∧
    (F2Q (Z.pos mx) ex - pow2 (kh - 53) <= F2Q (Z.pos m) e)%Q ∧
    (F2Q (Z.pos m) e <= F2Q (Z.pos mx) ex + pow2 (kh - 53))%Q.
Proof.
  intros Hl Hh Hkl Hkh.
  pose proof (digits_of_value mx ex kl kh Hl Hh) as Hd.
  unfold binary_round.
  change (Z.pos (digits2_pos mx)) with (Zdigits2 (Z.pos mx)).
  set (f := fexp prec emax (Zdigits2 (Z.pos mx) + ex)).
  assert (f = Zdigits2 (Z.pos mx) + ex - 53) as Hf
    by (unfold f, fexp, emin, prec, emax; lia).
  destruct (shl_align_spec mx ex f) as [He Hm].
  destruct (shl_align mx ex f) as [mz ez]. cbn [fst snd] in He, Hm.
  assert (0 <= ex - ez) as Hs by lia.
  assert (Zdigits2 (Z.pos mz) = Zdigits2 (Z.pos mx) + (ex - ez)) as Dz.
  { rewrite Hm, <- He. apply Zdigits2_shift; lia. }
  assert (F2Q (Z.pos mz) ez == F2Q (Z.pos mx) ex)%Q as Hval.
  { rewrite Hm, <- He, F2Q_shift by lia.
    by replace (ez + (ex - ez)) with ex by lia. }
  destruct (binary_round_aux_normal false (Z.pos mz) ez loc_Exact)
    as (m & e & Heq & Dm & Hexp & Hlo & Hhi); [lia|lia|lia|].
  exists m, e. split; [exact Heq|]. split; [exact Dm|]. split; [lia|].
  rewrite Hval in Hlo, Hhi.
  pose proof (pow2_le (Zdigits2 (Z.pos mz) + ez - 53) (kh - 53) ltac:(lia)).
  split; lra.
Qed.

Lemma to_Q_signed s m e :
  (to_Q (S754_finite s m e) == signed s (F2Q (Z.pos m) e))%Q.
Proof. destruct s; [apply to_Q_finite_neg|apply to_Q_finite]. Qed.

(** A sum that is positive and of known magnitude is rounded once. *)
Lemma SFadd_pos_sum mb eb sn mn en kl kh :
  let v := (F2Q (Z.pos mb) eb + signed sn (F2Q (Z.pos mn) en))%Q in
  (pow2 kl <= v)%Q → (v < pow2 kh)%Q → -1022 <= kl → kh <= 1023 →
  ∃ m e,
    SFadd prec emax (S754_finite false mb eb) (S754_finite sn mn en)
      = S754_finite false m e ∧
    Zdigits2 (Z.pos m) = 53 ∧ kl - 52 <= e <= kh - 52 ∧
    (v - pow2 (kh - 53) <= F2Q (Z.pos m) e)%Q ∧
    (F2Q (Z.pos m) e <= v + pow2 (kh - 53))%Q.
Proof.
  intros v Hl Hh Hkl Hkh. cbn [SFadd].
  set (ez := Z.min eb en).
  rewrite (shl_align_fst mb eb ez), (shl_align_fst mn en ez) by (unfold ez; lia).
  set (z := cond_Zopp false (Z.pos mb * 2 ^ (eb - ez)) +
            cond_Zopp sn (Z.pos mn * 2 ^ (en - ez))).
  assert (F2Q z ez == v)%Q as Hval.
  { unfold z, v. rewrite F2Q_add. cbn [cond_Zopp].
    rewrite F2Q_shift by (unfold ez; lia).
    replace (ez + (eb - ez)) with eb by lia.
    apply Qplus_comp; [reflexivity|].
    destruct sn; cbn [cond_Zopp signed].
    - rewrite F2Q_opp, F2Q_shift by (unfold ez; lia).
      by replace (ez + (en - ez)) with en by lia.
    - rewrite F2Q_shift by (unfold ez; lia).
      by replace (ez + (en - ez)) with en by lia. }
  pose proof (pow2_pos kl) as Hpos.
  destruct z as [|mz|mz].
  - rewrite F2Q_0 in Hval. lra.
  - cbn [binary_normalize]. rewrite <- Hval in Hl, Hh.
    destruct (binary_round_normal mz ez kl kh Hl Hh Hkl Hkh)
      as (m & e & Heq & Dm & He & Hlo & Hhi).
    exists m, e. rewrite Hval in Hlo, Hhi. done.
  - pose proof (F2Q_le (Z.neg mz) 0 ez ltac:(lia)) as Hneg.
    rewrite F2Q_0 in Hneg. lra.
Qed.

(** *** Baseline plus small noise *)

Lemma lit_0_03 : $0.03 = S754_finite false 8646911284551352 (-58).
Proof. vm_compute. reflexivity. Qed.

Lemma pow2_m6 : (pow2 (-6) == 1 # 64)%Q.
Proof. reflexivity. Qed.

Lemma value_0_02 :
  (to_Q $0.02 == 5764607523034235 # 288230376151711744)%Q.
Proof. vm_compute. reflexivity. Qed.

Lemma value_0_40 :
  (to_Q $0.40 == 7205759403792794 # 18014398509481984)%Q.
Proof. vm_compute. reflexivity. Qed.

Lemma value_0_03 :
  (F2Q 8646911284551352 (-58) == 8646911284551352 # 288230376151711744)%Q.
Proof. reflexivity. Qed.

Lemma small_noise_value noise :
  well_formed noise = true → leb (SFabs noise) $0.03 = true →
  (∃ s, noise = S754_zero s) ∨
  (∃ s m e, noise = S754_finite s m e ∧ (F2Q (Z.pos m) e <= 3 # 100)%Q).
Proof.
  intros Hwf Hle. rewrite lit_0_03 in Hle.
  destruct noise as [s|s| |s m e]; try discriminate.
  - left. by exists s.
  - right. exists s, m, e. split; [reflexivity|].
    cbn [SFabs] in Hle. unfold leb in Hle.
    cbn [well_formed] in Hwf. apply Z.leb_le in Hwf. unfold prec in Hwf.
    destruct (value_bounds m e) as [_ Hv].
    apply SFleb_pos_spec in Hle as [He|[-> Hm]].
    + pose proof (pow2_le (e + Zdigits2 (Z.pos m)) (-6) ltac:(lia)) as Hp.
      rewrite pow2_m6 in Hp. lra.
    + pose proof (F2Q_le (Z.pos m) 8646911284551352 (-58) Hm) as Hp.
      rewrite value_0_03 in Hp. lra.
Qed.

Lemma signed_bounds s v : (0 <= v)%Q → (- v <= signed s v)%Q ∧ (signed s v <= v)%Q.
Proof. intros Hv. destruct s; cbn [signed]; split; lra. Qed.

Lemma baseline_values_range :
  Forall (λ b : float,
            (5057 # 100000 <= to_Q b)%Q ∧ (to_Q b <= 22501 # 100000)%Q)
         baseline_values.
Proof.
  assert (forallb (λ b : float,
            Qle_bool (5057 # 100000) (to_Q b) &&
            Qle_bool (to_Q b) (22501 # 100000)) baseline_values = true)
    as Hall by (vm_compute; reflexivity).
  apply forallb_Forall in Hall.
  eapply Forall_impl; [exact Hall|]. intros b Hb. cbn beta in Hb.
  apply andb_prop in Hb as [H1 H2]. by rewrite <- !Qle_bool_iff.
Qed.

(** Baseline plus noise is a normal number within 2⁻⁵⁴ of the exact sum. *)
Lemma noisy_baseline (b noise : float) :
  b ∈ baseline_values (F:=float) →
  well_formed noise = true → leb (SFabs noise) $0.03 = true →
  ∃ m e,
    (b + noise)%A = S754_finite false m e ∧
    Zdigits2 (Z.pos m) = 53 ∧ -58 <= e <= -54 ∧
    (to_Q b + to_Q noise - pow2 (-54) <= F2Q (Z.pos m) e)%Q ∧
    (F2Q (Z.pos m) e <= to_Q b + to_Q noise + pow2 (-54))%Q.
Proof.
  intros Hb Hwf Hle.
  pose proof baseline_values_normal as Hn. rewrite Forall_forall in Hn.
  pose proof baseline_values_range as Hr. rewrite Forall_forall in Hr.
  destruct (Hn b Hb) as [Hbr (mb & eb & -> & Db)].
  specialize (Hr _ Hb). pose proof (to_Q_finite mb eb) as HB.
  float_ops.
  destruct (small_noise_value noise Hwf Hle) as [[s ->]|(s & m & e & -> & Hv)].
  - exists mb, eb. split; [reflexivity|]. split; [exact Db|].
    split; [exact (normal_price_exp mb eb Hbr)|].
    pose proof (pow2_pos (-54)).
    assert (to_Q (S754_zero s) == 0)%Q as HN by reflexivity.
    split; lra.
  - pose proof (to_Q_signed s m e) as HN.
    assert (0 <= F2Q (Z.pos m) e)%Q as H0.
    { pose proof (F2Q_le 0 (Z.pos m) e ltac:(lia)) as H0.
      by rewrite F2Q_0 in H0. }
    pose proof (signed_bounds s _ H0) as [Hs1 Hs2].
    destruct (SFadd_pos_sum mb eb s m e (-6) (-1))
      as (mx & ex & Heq & Dx & Hex & Hlo & Hhi); [| |lia|lia|].
    { rewrite pow2_m6. lra. }
    { rewrite pow2_m1. lra. }
    change (-1 - 53) with (-54) in *.
    exists mx, ex. split; [exact Heq|]. split; [exact Dx|]. split.
    + split; [lia|]. apply (normal_exp_lt mx ex (-1)); [exact Dx|].
      rewrite pow2_m1. rewrite pow2_m54 in Hhi. lra.
    + split; lra.
Qed.

(** The blend of a price with baseline plus noise, as the loop computes
    it, is a normal number within [step_error] of the exact blend. *)
Lemma noisy_blend (p b noise : float) :
  normal_price p → b ∈ baseline_values (F:=float) →
  well_formed noise = true → leb (SFabs noise) $0.03 = true →
  ∃ mr er,
    ($0.8 * p + $0.2 * (b + noise))%A = S754_finite false mr er ∧
    Zdigits2 (Z.pos mr) = 53 ∧
    ((4 # 5) * to_Q p + (1 # 5) * (to_Q b + to_Q noise) - step_error
       <= F2Q (Z.pos mr) er)%Q ∧
    (F2Q (Z.pos mr) er
       <= (4 # 5) * to_Q p + (1 # 5) * (to_Q b + to_Q noise) + step_error)%Q.
Proof.
  intros [Hpr (m & e & -> & D)] Hb Hwf Hle.
  apply normal_price_exp in Hpr.
  destruct (noisy_baseline b noise Hb Hwf Hle)
    as (mx & ex & -> & Dx & Hex & Hxl & Hxh).
  destruct (blend_close m e mx ex D Hpr Dx Hex)
    as (mr & er & Heq & Dr & Hlo & Hhi).
  exists mr, er. split; [exact Heq|]. split; [exact Dr|].
  rewrite to_Q_finite. rewrite pow2_m54 in Hxl, Hxh.
  unfold step_error, blend_error in *. split; lra.
Qed.

Lemma clamp_idle mr er :
  Zdigits2 (Z.pos mr) = 53 →
  (205 # 10000 <= F2Q (Z.pos mr) er)%Q → (F2Q (Z.pos mr) er <= 2551 # 10000)%Q →
  clamp (S754_finite false mr er : float) = S754_finite false mr er ∧
  calm (S754_finite false mr er).
Proof.
  intros D Hl Hh. destruct (clamp_normal mr er D) as [Hn Hc]. cbv zeta in Hc.
  rewrite value_0_02, value_0_40, to_Q_finite in Hc.
  destruct Hc as [Hc | [[_ Hlt] | [_ Hlt]]]; [|lra|lra].
  split; [exact Hc|]. rewrite Hc in Hn. split; [exact Hn|].
  rewrite to_Q_finite. split; assumption.
Qed.

Lemma clamp_idle_calm mr er :
  Zdigits2 (Z.pos mr) = 53 →
  (205 # 10000 <= F2Q (Z.pos mr) er)%Q → (F2Q (Z.pos mr) er <= 2551 # 10000)%Q →
  calm (clamp (S754_finite false mr er : float)).
Proof.
  intros D Hl Hh. destruct (clamp_idle mr er D Hl Hh) as [-> Hc]. exact Hc.
Qed.

Lemma calm_strict p :
  calm p → SFltb $0.02 p = true ∧ SFltb p $0.40 = true.
Proof.
  intros [[_ (m & e & -> & D)] [Hl Hh]]. rewrite to_Q_finite in Hl, Hh.
  rewrite lit_0_02, lit_0_40. split.
  - destruct (SFltb (S754_finite false 5764607523034235 (-58))
                    (S754_finite false m e)) eqn:E; [done|].
    apply SFltb_false_leb in E; [|done|done].
    apply normal_le in E; [|done|done].
    pose proof value_0_02 as Hv. rewrite lit_0_02, to_Q_finite in Hv. lra.
  - destruct (SFltb (S754_finite false m e)
                    (S754_finite false 7205759403792794 (-54))) eqn:E; [done|].
    apply SFltb_false_leb in E; [|done|done].
    apply normal_le in E; [|done|done].
    pose proof value_0_40 as Hv. rewrite lit_0_40, to_Q_finite in Hv. lra.
Qed.

(** *** The loop with small noise and no spike *)

Section Calm.

Context {G : Type} {rs : RandomState float G}.
Hypothesis Hnoise : small_noise rs.
Hypothesis Hspike : spikes_disabled rs.

Lemma spike_free_step prev dt (g : G) p g' b :
  baseline_price dt = inr b → hourly_step prev dt g p g' →
  p = clamp (smooth prev b (normal $0.0 $0.002 g).1).
Proof.
  intros Hb [base noise g1 spiked g2 Hbase Hn Hs].
  rewrite Hb in Hbase. injection Hbase as <-. rewrite Hn. cbn [fst].
  destruct Hs as [u h1 m h2 Hu Hlt Hm|u h1 Hu Hlt]; [|reflexivity].
  pose proof (Hspike g1) as Hno. rewrite Hu in Hno. cbn [fst] in Hno.
  congruence.
Qed.

Lemma calm_hourly_step prev dt (g : G) p g' :
  match prev with Some q => calm q | None => True end →
  hourly_step prev dt g p g' → calm p.
Proof.
  intros Hprev Hstep.
  assert (∃ b : float, baseline_price dt = inr b) as [b Hb].
  { destruct Hstep as [base ? ? ? ? Hbase _ _]. by exists base. }
  rewrite (spike_free_step _ _ _ _ _ _ Hb Hstep).
  destruct (Hnoise $0.0 $0.002 g) as [Hwf Hle].
  set (noise := (normal $0.0 $0.002 g).1) in *.
  pose proof (baseline_in_values dt b Hb) as Hin.
  pose proof baseline_values_range as Hr. rewrite Forall_forall in Hr.
  specialize (Hr _ Hin).
  assert ((- (3 # 100) <= to_Q noise)%Q ∧ (to_Q noise <= 3 # 100)%Q) as Hnv.
  { destruct (small_noise_value noise Hwf Hle) as [[s ->]|(s & m & e & -> & Hv)].
    - cbn [to_Q]. split; lra.
    - rewrite to_Q_signed.
      assert (0 <= F2Q (Z.pos m) e)%Q as H0.
      { pose proof (F2Q_le 0 (Z.pos m) e ltac:(lia)) as H0.
        by rewrite F2Q_0 in H0. }
      pose proof (signed_bounds s _ H0). split; lra. }
  destruct prev as [q|]; unfold smooth.
  - destruct Hprev as [Hq [Hql Hqh]].
    destruct (noisy_blend q b noise Hq Hin Hwf Hle)
      as (mr & er & -> & Dr & Hlo & Hhi).
    unfold step_error in *. apply clamp_idle_calm; [exact Dr|lra|lra].
  - destruct (noisy_baseline b noise Hin Hwf Hle)
      as (mx & ex & -> & Dx & _ & Hlo & Hhi).
    rewrite pow2_m54 in Hlo, Hhi. apply clamp_idle_calm; [exact Dx|lra|lra].
Qed.

Lemma calm_series prev ts (g : G) ps g' :
  match prev with Some q => calm q | None => True end →
  series prev ts g ps g' → Forall calm ps.
Proof.
  intros Hprev Hs. induction Hs as [|prev dt ts g p g1 ps g' Hstep Hs IH].
  - constructor.
  - pose proof (calm_hourly_step _ _ _ _ _ Hprev Hstep) as Hp.
    constructor; [exact Hp|]. by apply IH.
Qed.

End Calm.

Lemma calm_random_state_small_noise : small_noise calm_random_state.
Proof.
  intros loc scale g. cbn [normal calm_random_state fst].
  destruct (Nat.even g); split; vm_compute; reflexivity.
Qed.

End Binary64Noise.

Import Binary64Noise.

(** X9. In binary64, when no spike is taken and the noise draw is a double
    of magnitude at most 0.03, one hour moves a price within the clamp
    bounds towards baseline + noise by at most a fifth of their distance,
    never past that point and never away from it, up to a rounding error
    of 5 × 10⁻¹⁶. *)
Theorem smoothing_is_gradual_up_to_rounding
    {G : Type} {rs : RandomState float G}
    (prev : float) (dt : Timestamp) (g : G) (p : float) (g' : G) (b : float) :
  small_noise rs → spikes_disabled rs →
  valid_binary prec emax prev = true → in_clamp_range prev = true →
  baseline_price dt = inr b →
  hourly_step (Some prev) dt g p g' →
  let x := (to_Q b + to_Q (normal $0.0 $0.002 g).1)%Q in
  let fifth := (to_Q prev + (1 # 5) * (x - to_Q prev))%Q in
  ((to_Q prev <= x)%Q →
     (to_Q prev - (5 # 10000000000000000) <= to_Q p)%Q ∧
     (to_Q p <= fifth + (5 # 10000000000000000))%Q) ∧
  ((x <= to_Q prev)%Q →
     (fifth - (5 # 10000000000000000) <= to_Q p)%Q ∧
     (to_Q p <= to_Q prev + (5 # 10000000000000000))%Q).
Proof.
  intros Hnoise Hspike Hv Hr Hb Hstep. cbv zeta.
  pose proof (valid_price_normal prev Hv Hr) as Hprev.
  rewrite (spike_free_step Hspike _ _ _ _ _ _ Hb Hstep).
  destruct (Hnoise $0.0 $0.002 g) as [Hwf Hle].
  set (noise := (normal $0.0 $0.002 g).1) in *.
  destruct (noisy_blend prev b noise Hprev (baseline_in_values dt b Hb) Hwf Hle)
    as (mr & er & Eraw & Dr & Hlo & Hhi).
  unfold smooth. rewrite Eraw.
  destruct (normal_price_value prev Hprev) as [HL HH].
  destruct (clamp_normal mr er Dr) as [_ Hcases]. cbv zeta in Hcases.
  rewrite <- (to_Q_finite mr er) in Hlo, Hhi.
  unfold step_error in *.
  destruct Hcases as [-> | [[-> Hlt] | [-> Hlt]]]; split; intros Hx; split; lra.
Qed.

Lemma smoothing_is_gradual_up_to_rounding_witness :
  ∃ p g',
    hourly_step (rs:=calm_random_state) (Some ($0.3 : float))
      (timestamp_of 2021 1 1 6) 0%nat p g' ∧
    let x := (to_Q ($0.07 * $1.25 * $1.05)%A +
              to_Q (@normal float nat calm_random_state $0.0 $0.002 0%nat).1)%Q in
    let fifth := (to_Q $0.3 + (1 # 5) * (x - to_Q $0.3))%Q in
    ((to_Q $0.3 <= x)%Q →
       (to_Q $0.3 - (5 # 10000000000000000) <= to_Q p)%Q ∧
       (to_Q p <= fifth + (5 # 10000000000000000))%Q) ∧
    ((x <= to_Q $0.3)%Q →
       (fifth - (5 # 10000000000000000) <= to_Q p)%Q ∧
       (to_Q p <= to_Q $0.3 + (5 # 10000000000000000))%Q).
Proof.
  destruct (hourly_step_total (rs:=calm_random_state) (Some ($0.3 : float))
              (timestamp_of 2021 1 1 6) 0%nat) as (p & g' & Hstep).
  { apply supported_by_decide. vm_compute. reflexivity. }
  exists p, g'. split; [exact Hstep|].
  apply (smoothing_is_gradual_up_to_rounding (rs:=calm_random_state)
           ($0.3 : float) (timestamp_of 2021 1 1 6) 0%nat p g'
           ($0.07 * $1.25 * $1.05)%A).
  - exact calm_random_state_small_noise.
  - intros g. vm_compute. reflexivity.
  - vm_compute. reflexivity.
  - vm_compute. reflexivity.
  - vm_compute. reflexivity.
  - exact Hstep.
Defined.

(** X10. In binary64, if every noise draw is a double of magnitude at most
    0.03 and no spike is taken, every price of the run lies in
    [0.0205, 0.2551], strictly between the clamp bounds: without a spike
    the clamp never changes a price. *)
Theorem clamp_is_idle_for_small_noise
    {G : Type} (rs : RandomState float G) (g : G) :
  small_noise rs → spikes_disabled rs →
  ∃ out g',
    generate_prices g = inr (out, g') ∧
    Forall (λ row,
              (205 # 10000 <= to_Q row.2)%Q ∧ (to_Q row.2 <= 2551 # 10000)%Q ∧
              ($0.02 <? row.2)%A = true ∧ (row.2 <? $0.40)%A = true)
           (table out).
Proof.
  intros Hnoise Hspike.
  destruct (generate_prices_run g) as (ps & g' & Hs & Hrun).
  eexists _, g'. split; [exact Hrun|]. cbn [table].
  pose proof (calm_series Hnoise Hspike None timestamps g ps g' I Hs) as Hall.
  apply Forall_forall. intros [t p] Hin. cbn [snd].
  apply elem_of_zip_r in Hin. rewrite Forall_forall in Hall.
  specialize (Hall p Hin). destruct (calm_strict p Hall) as [H1 H2].
  destruct Hall as [_ [Hl Hh]]. float_ops.
  split; [exact Hl|]. split; [exact Hh|]. split; [exact H1|exact H2].
Qed.

Lemma clamp_is_idle_for_small_noise_witness :
  ∃ out g',
    generate_prices (rs:=calm_random_state) 0%nat = inr (out, g') ∧
    Forall (λ row,
              (205 # 10000 <= to_Q row.2)%Q ∧ (to_Q row.2 <= 2551 # 10000)%Q ∧
              ($0.02 <? row.2)%A = true ∧ (row.2 <? $0.40)%A = true)
           (table out).
Proof.
  apply (clamp_is_idle_for_small_noise calm_random_state 0%nat).
  - exact calm_random_state_small_noise.
  - intros g. vm_compute. reflexivity.
Defined.
